(** * DEFENDER DETECTIVE // Black Ice Protocol: threat-response security core

    A shallow embedding of the security core of the application:
    - [ThreatMonitor]: class [ThreatMonitor] of src/monitor/threatMonitor.js,
      the rolling threat history and the security level derived from it,
      with the two listeners of the main process;
    - [Vault]: class [VaultManager] (required as ./vault/vaultManager), the
      encrypt/decrypt pair, [decryptFile], the protected-folder set with its
      watchers and the handling of file-watch events;
    - [Panic]: class [PanicHandler] (required as ./panic/panicHandler),
      lockdown, panic mode and self-obliteration;
    - [Logger]: class [SecurityLogger] of src/utils/securityLogger.js,
      appending, rotation and retention of the encrypted log files.

    JavaScript objects become records, mutation becomes explicit state
    passing, a thrown exception becomes the left injection of a sum, and the
    services of the Node.js runtime the code calls ([crypto], [path],
    date parsing) are parameters of the sections that use them. *)

From Stdlib Require Import ZArith List String Ascii Bool Lia Permutation.
From Stdlib Require Import Strings.Byte.
From stdpp Require Import gmap strings list fin_maps pretty.
Import ListNotations.

Local Open Scope string_scope.
Local Open Scope list_scope.
Local Open Scope nat_scope.

(* ===================================================================== *)
(** * Threat monitor                                                      *)
(* ===================================================================== *)

Module ThreatMonitor.

(** A threat object as built at every [reportThreat] call site; the
    [details] map is never read by the code modelled here. *)
Record Threat := mkThreat {
  type : string;
  severity : string;
  description : string;
  timestamp : Z
}.

Inductive SecurityLevel := GREEN | YELLOW | RED.

(** What the monitor (an [EventEmitter]) emits to its listeners. *)
Inductive Emitted :=
| threat_detected (t : Threat)
| security_level_changed (l : SecurityLevel).

Record Monitor := mkMonitor {
  recentThreats : list Threat;
  emitted : list Emitted           (* oldest first *)
}.

Definition initial : Monitor := {| recentThreats := []; emitted := [] |}.

Definition emit (e : Emitted) (m : Monitor) : Monitor :=
  {| recentThreats := recentThreats m; emitted := emitted m ++ [e] |}.

Definition hasSeverity (s : string) (t : Threat) : bool :=
  String.eqb (severity t) s.

(** The value of [newLevel] at the end of [updateSecurityLevel]. *)
Definition newLevel (recent : list Threat) : SecurityLevel :=
  let highThreats := length (List.filter (hasSeverity "HIGH") recent) in
  let mediumThreats := length (List.filter (hasSeverity "MEDIUM") recent) in
  if (0 <? highThreats)%nat then RED
  else if (2 <? mediumThreats)%nat || (5 <? length recent)%nat then YELLOW
  else GREEN.

(** [updateSecurityLevel(threat)]: the argument is not used by the body. *)
Definition updateSecurityLevel (threat : Threat) (m : Monitor) : Monitor :=
  emit (security_level_changed (newLevel (recentThreats m))) m.

(** [reportThreat(threat)]: unshift, cap at 100, emit, recompute. *)
Definition reportThreat (threat : Threat) (m : Monitor) : Monitor :=
  let unshifted := threat :: recentThreats m in
  let capped :=
    if (100 <? length unshifted)%nat then firstn 100 unshifted else unshifted in
  let m1 := {| recentThreats := capped; emitted := emitted m |} in
  let m2 := emit (threat_detected threat) m1 in
  updateSecurityLevel threat m2.

(** The main process keeps a [securityLevel] variable, written by its two
    listeners: [handleThreatDetected] (its synchronous prefix) and
    [handleSecurityLevelChange]. *)
Definition listener (current : SecurityLevel) (e : Emitted) : SecurityLevel :=
  match e with
  | threat_detected t => if hasSeverity "HIGH" t then RED else YELLOW
  | security_level_changed l => l
  end.

Definition mainSecurityLevel (m : Monitor) : SecurityLevel :=
  fold_left listener (emitted m) GREEN.

(** Report the threats one after the other and record, after each report,
    the level held by the main process. *)
Fixpoint levelsAfterEach (ts : list Threat) (m : Monitor) : list SecurityLevel :=
  match ts with
  | [] => []
  | t :: ts' =>
      let m' := reportThreat t m in
      mainSecurityLevel m' :: levelsAfterEach ts' m'
  end.

Definition medium (n : Z) : Threat :=
  {| type := "DEBUGGER_DETECTED"; severity := "MEDIUM";
     description := "Potential debugger detected via timing analysis";
     timestamp := n |}.

Definition high (n : Z) : Threat :=
  {| type := "SUSPICIOUS_PROCESS"; severity := "HIGH";
     description := "Suspicious process detected: ida.exe";
     timestamp := n |}.

(** ** Lemmas *)

Lemma filter_length_pos {A} (p : A -> bool) (l : list A) :
  0 < length (List.filter p l) <-> Exists (fun x => p x = true) l.
Proof.
  induction l as [|a l IH]; simpl.
  - split; [lia | intros H; inversion H].
  - destruct (p a) eqn:E; simpl.
    + split; [intros _; now constructor | lia].
    + rewrite IH. split; [now constructor 2|].
      intros H; inversion H; subst; [congruence | assumption].
Qed.

Lemma mainSecurityLevel_reportThreat t m :
  mainSecurityLevel (reportThreat t m) = newLevel (recentThreats (reportThreat t m)).
Proof.
  unfold mainSecurityLevel, reportThreat, updateSecurityLevel, emit; simpl.
  rewrite !fold_left_app. reflexivity.
Qed.

(** C1. The level is a function of the history alone: RED when some event
    is HIGH; otherwise YELLOW when more than two events are MEDIUM or the
    history holds more than five events; otherwise GREEN.  The level the
    monitor emits, and the one the main process holds after a report, is
    that function of the history. *)
Theorem security_level_derivation :
  forall recent : list Threat,
    let isHigh := fun t => severity t = "HIGH" in
    let mediums := length (List.filter (hasSeverity "MEDIUM") recent) in
    (Exists isHigh recent -> newLevel recent = RED) /\
    (~ Exists isHigh recent -> (2 < mediums \/ 5 < length recent) ->
       newLevel recent = YELLOW) /\
    (~ Exists isHigh recent -> ~ (2 < mediums \/ 5 < length recent) ->
       newLevel recent = GREEN) /\
    (forall t m, recentThreats m = recent ->
       emitted (updateSecurityLevel t m)
         = emitted m ++ [security_level_changed (newLevel recent)]) /\
    (forall t m, recentThreats (reportThreat t m) = recent ->
       mainSecurityLevel (reportThreat t m) = newLevel recent).
Proof.
  intros recent isHigh mediums.
  assert (Hhigh : Exists isHigh recent <->
                  0 < length (List.filter (hasSeverity "HIGH") recent)).
  { rewrite filter_length_pos, !List.Exists_exists.
    split; intros [t [Hin Ht]]; exists t; split; trivial;
      apply String.eqb_eq, Ht. }
  repeat split.
  - intros H. apply Hhigh in H. unfold newLevel.
    destruct (Nat.ltb_spec 0 (length (List.filter (hasSeverity "HIGH") recent)));
      [reflexivity | lia].
  - intros Hn Hy. rewrite Hhigh in Hn. unfold newLevel.
    destruct (Nat.ltb_spec 0 (length (List.filter (hasSeverity "HIGH") recent)));
      [lia |].
    fold mediums.
    destruct (Nat.ltb_spec 2 mediums); simpl; [reflexivity |].
    destruct (Nat.ltb_spec 5 (length recent)); [reflexivity | lia].
  - intros Hn Hy. rewrite Hhigh in Hn. unfold newLevel.
    destruct (Nat.ltb_spec 0 (length (List.filter (hasSeverity "HIGH") recent)));
      [lia |].
    fold mediums.
    destruct (Nat.ltb_spec 2 mediums); simpl; [lia |].
    destruct (Nat.ltb_spec 5 (length recent)); [lia | reflexivity].
  - intros t m <-. reflexivity.
  - intros t m <-. apply mainSecurityLevel_reportThreat.
Qed.

Lemma security_level_derivation_witness :
  Exists (fun t => severity t = "HIGH") [medium 1; high 2] /\
  newLevel [medium 1; high 2] = RED.
Proof.
  assert (H : Exists (fun t => severity t = "HIGH") [medium 1; high 2])
    by (right; left; reflexivity).
  split; [exact H|].
  exact (proj1 (security_level_derivation [medium 1; high 2]) H).
Defined.

(** C3 as the specification states it fails: the second MEDIUM report does
    not yet raise the level. *)
Lemma three_medium_one_high_not_as_specified :
  levelsAfterEach [medium 1; medium 2; medium 3; high 4] initial
    <> [GREEN; YELLOW; YELLOW; RED].
Proof. vm_compute. discriminate. Qed.

(** C3 (amended). From the empty history, three MEDIUM reports followed by
    one HIGH report give, after each report, GREEN, GREEN, YELLOW, RED. *)
Theorem three_medium_one_high_levels :
  levelsAfterEach [medium 1; medium 2; medium 3; high 4] initial
    = [GREEN; GREEN; YELLOW; RED]
  /\ map (fun h => newLevel h)
       [ [medium 1];
         [medium 2; medium 1];
         [medium 3; medium 2; medium 1];
         [high 4; medium 3; medium 2; medium 1] ]
     = [GREEN; GREEN; YELLOW; RED].
Proof. split; vm_compute; reflexivity. Qed.

End ThreatMonitor.

(* ===================================================================== *)
(** * Vault manager                                                       *)
(* ===================================================================== *)

Module Vault.

(** ** Buffers *)

Abbreviation Buffer := (list byte).

(** An index argument of [Buffer.prototype.slice]: negative values count
    from the end, and the result is clamped to the buffer. *)
Definition clampIndex (len : nat) (i : Z) : nat :=
  if (i <? 0)%Z then Z.to_nat (Z.max 0 (Z.of_nat len + i))
  else Nat.min (Z.to_nat i) len.

(** [buf.slice(start, end)]; [end] omitted is the length of the buffer. *)
Definition slice (buf : Buffer) (start : Z) (end_ : option Z) : Buffer :=
  let len := length buf in
  let s := clampIndex len start in
  let e := match end_ with Some e => clampIndex len e | None => len end in
  firstn (e - s) (skipn s buf).

(** ** The services of the Node.js runtime *)

(** What [crypto.createCipher('aes-256-gcm', key)] and
    [crypto.createDecipher('aes-256-gcm', key)] compute: neither takes an
    IV from the caller.  [gcmOpen] is [None] when [decipher.final()] (or
    [setAuthTag]) throws. *)
Class AeadCipher := {
  gcmSeal : Buffer -> Buffer -> Buffer -> Buffer * Buffer;
      (* key, associated data, plaintext |-> (ciphertext, auth tag) *)
  gcmOpen : Buffer -> Buffer -> Buffer -> Buffer -> option Buffer;
      (* key, associated data, ciphertext, auth tag *)
  gcmTagLength : forall k a p, length (snd (gcmSeal k a p)) = 16;
  gcmOpenSeal : forall k a p,
      gcmOpen k a (fst (gcmSeal k a p)) (snd (gcmSeal k a p)) = Some p
}.

(** The functions of the [path] module the vault calls. *)
Class NodePath := {
  path_resolve : string -> string;
  path_join : string -> string -> string;
  path_basename : string -> string
}.

(** A thrown JavaScript error. *)
Inductive JsError :=
| ENOENT (path : string)
| AuthenticationFailed
| ReferenceError (name : string)
| TypeError (what : string).

(** The bindings of a module scope.  [vaultManagerScope] lists the
    top-level bindings of the vault manager module (its [require] lines, the
    [execAsync] constant and the class); [os] is not among them. *)
Inductive Binding :=
| ModFs | ModFsSync | ModPath | ModCrypto | ModChokidar
| FnExec | FnPromisify | FnExecAsync | ClassVaultManager
| ModOs (tmpdir : string).

Definition Scope := list (string * Binding).

Definition vaultManagerScope : Scope :=
  [ ("fs", ModFs); ("fsSync", ModFsSync); ("path", ModPath);
    ("crypto", ModCrypto); ("chokidar", ModChokidar); ("exec", FnExec);
    ("promisify", FnPromisify); ("execAsync", FnExecAsync);
    ("VaultManager", ClassVaultManager) ].

Fixpoint lookupBinding (name : string) (sc : Scope) : option Binding :=
  match sc with
  | [] => None
  | (n, b) :: sc' => if String.eqb n name then Some b else lookupBinding name sc'
  end.

(** Evaluating [os.tmpdir()] in a scope. *)
Definition osTmpdir (sc : Scope) : JsError + string :=
  match lookupBinding "os" sc with
  | None => inl (ReferenceError "os")
  | Some (ModOs d) => inr d
  | Some _ => inl (TypeError "os.tmpdir is not a function")
  end.

(** ** State *)

(** Entries written through the security logger. *)
Inductive LogRecord :=
| LogThreat (type severity description : string)
| LogAction (action : string) (filePath : string)
| LogFileAccess (event filePath : string) (isAuthorized : bool).

(** The vault manager object together with the part of the world it acts
    on: the file system, the chokidar watchers that are open, the security
    log and the persisted folder list. *)
Record State := mkState {
  encryptionKey : Buffer;
  protectedFolders : list string;        (* a JS Set, in insertion order *)
  fileWatchers : gmap string nat;        (* Map: folder |-> watcher handle *)
  tempDecryptedFiles : gmap string string;
  files : gmap string Buffer;            (* file system: path |-> content *)
  openWatchers : gmap nat string;        (* open watchers: handle |-> folder *)
  nextWatcher : nat;                     (* next fresh handle *)
  securityLog : list LogRecord;          (* oldest first *)
  protectedFoldersFile : option (list string)   (* protected_folders.json *)
}.

Definition initial (key : Buffer) : State :=
  {| encryptionKey := key; protectedFolders := []; fileWatchers := ∅;
     tempDecryptedFiles := ∅; files := ∅; openWatchers := ∅;
     nextWatcher := 0; securityLog := []; protectedFoldersFile := None |}.

(** JS [Set] operations on the insertion-ordered representation. *)
Definition setHas (x : string) (s : list string) : bool :=
  existsb (String.eqb x) s.

Definition setAdd (x : string) (s : list string) : list string :=
  if setHas x s then s else s ++ [x].

Definition setDelete (x : string) (s : list string) : list string :=
  List.filter (fun y => negb (String.eqb x y)) s.

Definition logRecord (r : LogRecord) (s : State) : State :=
  {| encryptionKey := encryptionKey s; protectedFolders := protectedFolders s;
     fileWatchers := fileWatchers s; tempDecryptedFiles := tempDecryptedFiles s;
     files := files s; openWatchers := openWatchers s;
     nextWatcher := nextWatcher s; securityLog := securityLog s ++ [r];
     protectedFoldersFile := protectedFoldersFile s |}.

(** A file-system event as it happens in the world: chokidar passes the
    event name and the path to the callback, never the process behind it. *)
Record FsEvent := mkFsEvent {
  event : string;
  filePath : string;
  originPid : Z
}.

(** The associated data: [Buffer.from('defender-detective', 'utf8')]. *)
Definition associatedData : Buffer :=
  String.list_byte_of_string "defender-detective".

(** ** A reference cipher and a reference [path]

    Used only where a statement is evaluated on concrete bytes: a one-byte
    XOR stream with a sixteen-byte XOR checksum as tag. *)

Definition xorBits (a b : bool * (bool * (bool * (bool * (bool * (bool * (bool * bool)))))))
  : bool * (bool * (bool * (bool * (bool * (bool * (bool * bool)))))) :=
  let '(a0, (a1, (a2, (a3, (a4, (a5, (a6, a7))))))) := a in
  let '(b0, (b1, (b2, (b3, (b4, (b5, (b6, b7))))))) := b in
  (xorb a0 b0, (xorb a1 b1, (xorb a2 b2, (xorb a3 b3,
   (xorb a4 b4, (xorb a5 b5, (xorb a6 b6, xorb a7 b7))))))).

Definition xorByte (a b : byte) : byte :=
  Byte.of_bits (xorBits (Byte.to_bits a) (Byte.to_bits b)).

Definition checksum (bs : Buffer) : byte := fold_right xorByte x00 bs.

Definition refSeal (key aad plain : Buffer) : Buffer * Buffer :=
  let ct := map (xorByte (checksum key)) plain in
  (ct, repeat (checksum (key ++ aad ++ ct)) 16).

Definition bufferEqb (a b : Buffer) : bool :=
  if List.list_eq_dec Byte.byte_eq_dec a b then true else false.

Definition refOpen (key aad ct tag : Buffer) : option Buffer :=
  if bufferEqb tag (repeat (checksum (key ++ aad ++ ct)) 16)
  then Some (map (xorByte (checksum key)) ct)
  else None.

Fixpoint afterLastSlash (acc s : string) : string :=
  match s with
  | EmptyString => acc
  | String c s' =>
      if Ascii.eqb c "/"%char then afterLastSlash s' s' else afterLastSlash acc s'
  end.

Definition posixPath : NodePath :=
  {| path_resolve := fun p => p;
     path_join := fun a b => a +:+ "/" +:+ b;
     path_basename := fun p => afterLastSlash p p |}.

Lemma xorByte_involutive k a : xorByte k (xorByte k a) = a.
Proof.
  unfold xorByte. rewrite Byte.to_bits_of_bits.
  destruct (Byte.to_bits a) as [a0 [a1 [a2 [a3 [a4 [a5 [a6 a7]]]]]]] eqn:Ea.
  destruct (Byte.to_bits k) as [k0 [k1 [k2 [k3 [k4 [k5 [k6 k7]]]]]]].
  cbv beta iota zeta delta [xorBits].
  rewrite <- !xorb_assoc, !xorb_nilpotent, !xorb_false_l.
  rewrite <- Ea. apply Byte.of_bits_to_bits.
Qed.

Lemma bufferEqb_refl b : bufferEqb b b = true.
Proof. unfold bufferEqb. destruct (List.list_eq_dec _ b b); congruence. Qed.

#[export] Instance refCipher : AeadCipher.
Proof.
  refine {| gcmSeal := refSeal; gcmOpen := refOpen |}.
  - intros k a p. unfold refSeal. cbn [snd]. apply repeat_length.
  - intros k a p. unfold refOpen, refSeal; simpl.
    rewrite bufferEqb_refl. f_equal.
    rewrite map_map. rewrite <- (map_id p) at 2.
    apply map_ext. intros b. apply xorByte_involutive.
Defined.

(** ** The operations of the vault manager *)

Section WithRuntime.

Context {cipher : AeadCipher} {nodePath : NodePath}.

(** [process.pid]. *)
Variable pid : Z.

Definition ivLength : Z := 16.
Definition tagLength : Z := 16.

(** [encrypt(data)]; [iv] is the result of [crypto.randomBytes(ivLength)].
    The cipher is created from the key alone. *)
Definition encrypt (key iv data : Buffer) : Buffer :=
  let '(encrypted, tag) := gcmSeal key associatedData data in
  iv ++ encrypted ++ tag.

(** [decrypt(encryptedData)]: [iv] is sliced off and not used again. *)
Definition decrypt (key encryptedData : Buffer) : JsError + Buffer :=
  let iv := slice encryptedData 0 (Some ivLength) in
  let tag := slice encryptedData (- tagLength) None in
  let encrypted := slice encryptedData ivLength (Some (- tagLength)%Z) in
  match gcmOpen key associatedData encrypted tag with
  | Some decrypted => inr decrypted
  | None => inl AuthenticationFailed
  end.

(** The [try] block of [decryptFile(filePath)], evaluated in the module
    scope [sc] at time [now] ([Date.now()]). *)
Definition decryptFileBody (sc : Scope) (now : Z) (filePath : string) (s : State)
  : JsError + (string * State) :=
  let encryptedPath := filePath +:+ ".encrypted" in
  match files s !! encryptedPath with
  | None => inl (ENOENT encryptedPath)
  | Some encryptedData =>
      match decrypt (encryptionKey s) encryptedData with
      | inl e => inl e
      | inr decrypted =>
          match osTmpdir sc with
          | inl e => inl e
          | inr dir =>
              let tempPath :=
                path_join dir
                  ("dd_temp_" +:+ pretty now +:+ "_" +:+ path_basename filePath) in
              inr (tempPath,
                   {| encryptionKey := encryptionKey s;
                      protectedFolders := protectedFolders s;
                      fileWatchers := fileWatchers s;
                      tempDecryptedFiles :=
                        <[filePath := tempPath]> (tempDecryptedFiles s);
                      files := <[tempPath := decrypted]> (files s);
                      openWatchers := openWatchers s;
                      nextWatcher := nextWatcher s;
                      securityLog := securityLog s;
                      protectedFoldersFile := protectedFoldersFile s |})
          end
      end
  end.

(** [decryptFile(filePath)]: the [catch] turns every error into [null]. *)
Definition decryptFile (sc : Scope) (now : Z) (filePath : string) (s : State)
  : option string * State :=
  match decryptFileBody sc now filePath s with
  | inr (tempPath, s') => (Some tempPath, s')
  | inl _ => (None, s)
  end.

(** [watchFolder(folderPath)].  [chokidar.watch] reports a failing watch
    through the ['error'] event of the watcher it returns; given a string it
    does not throw, so the [catch] of the method has no counterpart here. *)
Definition watchFolder (folderPath : string) (s : State) : State :=
  match fileWatchers s !! folderPath with
  | Some _ => s
  | None =>
      let watcher := nextWatcher s in
      {| encryptionKey := encryptionKey s;
         protectedFolders := protectedFolders s;
         fileWatchers := <[folderPath := watcher]> (fileWatchers s);
         tempDecryptedFiles := tempDecryptedFiles s;
         files := files s;
         openWatchers := <[watcher := folderPath]> (openWatchers s);
         nextWatcher := S watcher;
         securityLog := securityLog s;
         protectedFoldersFile := protectedFoldersFile s |}
  end.

(** [saveProtectedFolders()]; [diskOk = false] is a failing write, which
    the method catches. *)
Definition saveProtectedFolders (diskOk : bool) (s : State) : State :=
  if diskOk then
    {| encryptionKey := encryptionKey s;
       protectedFolders := protectedFolders s;
       fileWatchers := fileWatchers s;
       tempDecryptedFiles := tempDecryptedFiles s;
       files := files s;
       openWatchers := openWatchers s;
       nextWatcher := nextWatcher s;
       securityLog := securityLog s;
       protectedFoldersFile := Some (protectedFolders s) |}
  else s.

Definition withFolders (fs : list string) (s : State) : State :=
  {| encryptionKey := encryptionKey s;
     protectedFolders := fs;
     fileWatchers := fileWatchers s;
     tempDecryptedFiles := tempDecryptedFiles s;
     files := files s;
     openWatchers := openWatchers s;
     nextWatcher := nextWatcher s;
     securityLog := securityLog s;
     protectedFoldersFile := protectedFoldersFile s |}.

(** [watcher.close(); this.fileWatchers.delete(absolutePath)]. *)
Definition closeWatcher (folderPath : string) (watcher : nat) (s : State) : State :=
  {| encryptionKey := encryptionKey s;
     protectedFolders := protectedFolders s;
     fileWatchers := delete folderPath (fileWatchers s);
     tempDecryptedFiles := tempDecryptedFiles s;
     files := files s;
     openWatchers := delete watcher (openWatchers s);
     nextWatcher := nextWatcher s;
     securityLog := securityLog s;
     protectedFoldersFile := protectedFoldersFile s |}.

(** [addProtectedFolder(folderPath)]. *)
Definition addProtectedFolder (diskOk : bool) (folderPath : string) (s : State)
  : State :=
  let absolutePath := path_resolve folderPath in
  if negb (setHas absolutePath (protectedFolders s)) then
    let s1 := withFolders (setAdd absolutePath (protectedFolders s)) s in
    let s2 := watchFolder absolutePath s1 in
    saveProtectedFolders diskOk s2
  else s.

(** [removeProtectedFolder(folderPath)]. *)
Definition removeProtectedFolder (diskOk : bool) (folderPath : string) (s : State)
  : State :=
  let absolutePath := path_resolve folderPath in
  if setHas absolutePath (protectedFolders s) then
    let s1 := withFolders (setDelete absolutePath (protectedFolders s)) s in
    let s2 := match fileWatchers s1 !! absolutePath with
              | Some watcher => closeWatcher absolutePath watcher s1
              | None => s1
              end in
    saveProtectedFolders diskOk s2
  else s.

(** [isAuthorizedAccess(filePath)]: [process.pid === process.pid]. *)
Definition isAuthorizedAccess (filePath : string) : bool := (pid =? pid)%Z.

(** [blockFileAccess(filePath)]. *)
Definition blockFileAccess (filePath : string) (s : State) : State :=
  logRecord (LogAction "FILE_ACCESS_BLOCKED" filePath) s.

(** [handleUnauthorizedAccess(event, filePath)]. *)
Definition handleUnauthorizedAccess (event filePath : string) (s : State) : State :=
  let s1 :=
    logRecord
      (LogThreat "FILE_ACCESS_ATTEMPT" "HIGH"
         ("Unauthorized file access: " +:+ event +:+ " on " +:+ filePath)) s in
  blockFileAccess filePath s1.

(** [handleFileEvent(event, filePath)]. *)
Definition handleFileEvent (event filePath : string) (s : State) : State :=
  let isAuthorized := isAuthorizedAccess filePath in
  let s1 := if negb isAuthorized
            then handleUnauthorizedAccess event filePath s else s in
  logRecord (LogFileAccess event filePath isAuthorized) s1.

(** The ['all'] callback installed by [watchFolder]. *)
Definition watcherCallback (e : FsEvent) (s : State) : State :=
  handleFileEvent (event e) (filePath e) s.

(** Whether a log records a [FILE_ACCESS_ATTEMPT] threat. *)
Definition isFileAccessAttempt (r : LogRecord) : bool :=
  match r with
  | LogThreat t _ _ => String.eqb t "FILE_ACCESS_ATTEMPT"
  | _ => false
  end.

(** The folder set and the watchers agree: no folder twice, a watcher
    handle for exactly the protected folders, and the open watchers are
    exactly the registered handles. *)
Definition coherent (s : State) : Prop :=
  List.NoDup (protectedFolders s) /\
  (forall p, In p (protectedFolders s) <-> is_Some (fileWatchers s !! p)) /\
  (forall p w, fileWatchers s !! p = Some w <-> openWatchers s !! w = Some p) /\
  (forall w p, openWatchers s !! w = Some p -> w < nextWatcher s).

(** ** Encrypt and decrypt *)

Lemma slice_tag (iv ct tag : Buffer) :
  length iv = 16 -> length tag = 16 ->
  slice (iv ++ ct ++ tag) (- tagLength) None = tag.
Proof.
  intros Hiv Htag. unfold slice, clampIndex, tagLength.
  change (- (16) <? 0)%Z with true. cbv iota.
  assert (Hlen : length (iv ++ ct ++ tag) = length (iv ++ ct) + 16)
    by (rewrite !length_app; lia).
  rewrite Hlen.
  replace (Z.to_nat (Z.max 0 (Z.of_nat (length (iv ++ ct) + 16) + - (16))))
    with (length (iv ++ ct)) by lia.
  rewrite app_assoc, drop_app_length.
  apply firstn_all2. lia.
Qed.

Lemma slice_encrypted (iv ct tag : Buffer) :
  length iv = 16 -> length tag = 16 ->
  slice (iv ++ ct ++ tag) ivLength (Some (- tagLength)%Z) = ct.
Proof.
  intros Hiv Htag. unfold slice, clampIndex, tagLength, ivLength.
  change (- (16) <? 0)%Z with true. change (16 <? 0)%Z with false. cbv iota.
  assert (Hlen : length (iv ++ ct ++ tag) = 16 + length ct + 16)
    by (rewrite !length_app; lia).
  rewrite Hlen.
  replace (Z.to_nat (Z.max 0 (Z.of_nat (16 + length ct + 16) + - (16))))
    with (16 + length ct) by lia.
  replace (Nat.min (Z.to_nat 16) (16 + length ct + 16)) with (length iv) by lia.
  rewrite drop_app_length.
  replace (16 + length ct - length iv) with (length ct) by lia.
  apply take_app_length.
Qed.

Lemma decrypt_parts (key iv ct tag : Buffer) :
  length iv = 16 -> length tag = 16 ->
  decrypt key (iv ++ ct ++ tag)
    = match gcmOpen key associatedData ct tag with
      | Some decrypted => inr decrypted
      | None => inl AuthenticationFailed
      end.
Proof.
  intros Hiv Htag. unfold decrypt.
  rewrite slice_tag, slice_encrypted by assumption. reflexivity.
Qed.

(** Round trip: what [encrypt] produces, [decrypt] returns unchanged, for
    every plaintext (the empty one included) and every IV. *)
Lemma decrypt_encrypt (key iv data : Buffer) :
  length iv = 16 -> decrypt key (encrypt key iv data) = inr data.
Proof.
  intros Hiv. unfold encrypt.
  pose proof (gcmTagLength key associatedData data) as Htag.
  pose proof (gcmOpenSeal key associatedData data) as Hopen.
  destruct (gcmSeal key associatedData data) as [ct tag]. simpl in *.
  rewrite decrypt_parts by assumption. now rewrite Hopen.
Qed.

(** C2 (the code at the failing input). Overwriting a byte of the IV of an
    encrypted blob with a different value gives a different blob that
    [decrypt] accepts, returning the whole original plaintext: the IV takes
    no part in decryption. *)
Theorem decrypt_accepts_tampered_iv :
  forall (key iv data : Buffer) (i : nat) (b : byte),
    length iv = 16 -> i < 16 -> iv !! i <> Some b ->
    <[i := b]> (encrypt key iv data) <> encrypt key iv data /\
    decrypt key (<[i := b]> (encrypt key iv data)) = inr data.
Proof.
  intros key iv data i b Hiv Hi Hne. unfold encrypt.
  pose proof (gcmTagLength key associatedData data) as Htag.
  pose proof (gcmOpenSeal key associatedData data) as Hopen.
  destruct (gcmSeal key associatedData data) as [ct tag]. cbn [fst snd] in *.
  rewrite insert_app_l by lia. split.
  - intros Heq. apply app_inv_tail in Heq.
    apply Hne. rewrite <- Heq. apply list_lookup_insert_eq. lia.
  - rewrite decrypt_parts; [now rewrite Hopen | now rewrite length_insert | assumption].
Qed.

(** ** [decryptFile] *)

Lemma osTmpdir_vaultManagerScope :
  osTmpdir vaultManagerScope = inl (ReferenceError "os").
Proof. reflexivity. Qed.

Lemma decryptFileBody_vaultManagerScope_fails now filePath s :
  exists e, decryptFileBody vaultManagerScope now filePath s = inl e.
Proof.
  unfold decryptFileBody.
  destruct (files s !! (filePath +:+ ".encrypted")) as [blob|]; [|eauto].
  destruct (decrypt (encryptionKey s) blob) as [e|decrypted]; [eauto|].
  rewrite osTmpdir_vaultManagerScope. eauto.
Qed.

Lemma decryptFile_of_failure sc now filePath s e :
  decryptFileBody sc now filePath s = inl e ->
  decryptFile sc now filePath s = (None, s).
Proof. unfold decryptFile. now intros ->. Qed.

(** With a scope that does bind [os], the success branch is taken: the
    model of the body is not vacuous. *)
Lemma decryptFile_with_os (sc : Scope) dir now filePath s key iv data :
  osTmpdir sc = inr dir ->
  encryptionKey s = key ->
  length iv = 16 ->
  files s !! (filePath +:+ ".encrypted") = Some (encrypt key iv data) ->
  exists tempPath s',
    decryptFile sc now filePath s = (Some tempPath, s') /\
    files s' !! tempPath = Some data /\
    tempDecryptedFiles s' !! filePath = Some tempPath.
Proof.
  intros Hos Hkey Hiv Hfile. unfold decryptFile, decryptFileBody.
  rewrite Hfile, Hkey, decrypt_encrypt, Hos by assumption.
  eexists _, _. split; [reflexivity|]. simpl.
  split; apply lookup_insert_eq.
Qed.

(** C5 (amended). [decryptFile] returns [null] without throwing when the
    blob fails authentication, and it returns the same [null], leaving the
    same state, when the encrypted file does not exist: the error that told
    the two apart is dropped by the [catch]. *)
Theorem decryptFile_null_on_auth_failure_and_on_missing_file :
  forall (sc : Scope) (now : Z) (filePath : string) (s : State),
    let encryptedPath := filePath +:+ ".encrypted" in
    (forall blob,
        files s !! encryptedPath = Some blob ->
        decrypt (encryptionKey s) blob = inl AuthenticationFailed ->
        decryptFileBody sc now filePath s = inl AuthenticationFailed /\
        decryptFile sc now filePath s = (None, s)) /\
    (files s !! encryptedPath = None ->
        decryptFileBody sc now filePath s = inl (ENOENT encryptedPath) /\
        decryptFile sc now filePath s = (None, s)).
Proof.
  intros sc now filePath s encryptedPath. split.
  - intros blob Hfile Hdec.
    assert (H : decryptFileBody sc now filePath s = inl AuthenticationFailed).
    { unfold decryptFileBody. fold encryptedPath. now rewrite Hfile, Hdec. }
    split; [exact H | exact (decryptFile_of_failure _ _ _ _ _ H)].
  - intros Hfile.
    assert (H : decryptFileBody sc now filePath s = inl (ENOENT encryptedPath)).
    { unfold decryptFileBody. fold encryptedPath. now rewrite Hfile. }
    split; [exact H | exact (decryptFile_of_failure _ _ _ _ _ H)].
Qed.

(** C6. In the scope of the vault manager module, [decryptFile] returns
    [null] for every state and every path, leaves the state as it was, and
    its body never reaches the branch that yields a temp-file path: the
    evaluation of [os.tmpdir()] is a [ReferenceError]. *)
Theorem decryptFile_always_null :
  forall (now : Z) (filePath : string) (s : State),
    lookupBinding "os" vaultManagerScope = None /\
    osTmpdir vaultManagerScope = inl (ReferenceError "os") /\
    decryptFile vaultManagerScope now filePath s = (None, s) /\
    (forall tempPath s',
        decryptFileBody vaultManagerScope now filePath s <> inr (tempPath, s')).
Proof.
  intros now filePath s.
  destruct (decryptFileBody_vaultManagerScope_fails now filePath s) as [e He].
  repeat split; try reflexivity.
  - exact (decryptFile_of_failure _ _ _ _ _ He).
  - intros tempPath s'. rewrite He. discriminate.
Qed.

(** ** Protected folders and their watchers *)

Lemma setHas_In x s : setHas x s = true <-> In x s.
Proof.
  unfold setHas. rewrite List.existsb_exists. split.
  - intros [y [Hin Heq]]. apply String.eqb_eq in Heq. now subst.
  - intros Hin. exists x. split; [assumption | apply String.eqb_refl].
Qed.

Lemma setHas_false x s : setHas x s = false <-> ~ In x s.
Proof.
  rewrite <- setHas_In. destruct (setHas x s); split; congruence.
Qed.

Lemma protectedFolders_saveProtectedFolders d s :
  protectedFolders (saveProtectedFolders d s) = protectedFolders s.
Proof. now destruct d. Qed.

Lemma protectedFolders_watchFolder p s :
  protectedFolders (watchFolder p s) = protectedFolders s.
Proof. unfold watchFolder. now destruct (fileWatchers s !! p). Qed.

Lemma coherent_saveProtectedFolders d s :
  coherent s -> coherent (saveProtectedFolders d s).
Proof. now destruct d. Qed.

Lemma coherent_initial key : coherent (initial key).
Proof.
  unfold coherent, initial; simpl. split; [constructor|]. split; [|split].
  - intros p. rewrite lookup_empty. split; [intros [] | intros [x Hx]; discriminate].
  - intros p w. rewrite !lookup_empty. split; discriminate.
  - intros w p. rewrite lookup_empty. discriminate.
Qed.

(** A second [addProtectedFolder] of the same path changes nothing. *)
Lemma addProtectedFolder_idempotent d1 d2 P s :
  addProtectedFolder d2 P (addProtectedFolder d1 P s) = addProtectedFolder d1 P s.
Proof.
  unfold addProtectedFolder at 2 3.
  destruct (setHas (path_resolve P) (protectedFolders s)) eqn:Hhas; simpl.
  - unfold addProtectedFolder. now rewrite Hhas.
  - unfold addProtectedFolder.
    rewrite protectedFolders_saveProtectedFolders, protectedFolders_watchFolder.
    simpl. unfold setAdd. rewrite Hhas.
    assert (Hin : setHas (path_resolve P) (protectedFolders s ++ [path_resolve P]) = true).
    { apply setHas_In, List.in_app_iff. right. now left. }
    now rewrite Hin.
Qed.

Lemma In_protectedFolders_addProtectedFolder d P s :
  In (path_resolve P) (protectedFolders (addProtectedFolder d P s)).
Proof.
  unfold addProtectedFolder.
  destruct (setHas (path_resolve P) (protectedFolders s)) eqn:Hhas; simpl.
  - now apply setHas_In.
  - rewrite protectedFolders_saveProtectedFolders, protectedFolders_watchFolder.
    simpl. unfold setAdd. rewrite Hhas. apply List.in_app_iff. right. now left.
Qed.

(** [addProtectedFolder] keeps the folder set and the watchers in step. *)
Lemma coherent_addProtectedFolder d P s :
  coherent s -> coherent (addProtectedFolder d P s).
Proof.
  intros Hc. unfold addProtectedFolder.
  destruct (setHas (path_resolve P) (protectedFolders s)) eqn:Hhas; simpl;
    [assumption|].
  apply coherent_saveProtectedFolders.
  destruct Hc as (Hnd & Hdom & Hopen & Hfresh).
  apply setHas_false in Hhas.
  assert (Hnone : fileWatchers s !! path_resolve P = None).
  { destruct (fileWatchers s !! path_resolve P) eqn:E; [|reflexivity].
    exfalso. apply Hhas, Hdom. eauto. }
  unfold watchFolder, setAdd; simpl. rewrite Hnone.
  rewrite (proj2 (setHas_false _ _) Hhas).
  unfold coherent; simpl. repeat split.
  - apply List.NoDup_app; [assumption | repeat constructor; intros [] |].
    intros a Ha [<-|[]]. contradiction.
  - intros Hin. apply lookup_insert_is_Some.
    destruct (decide (path_resolve P = p)) as [|Hne]; [now left | right].
    split; [assumption|]. apply Hdom.
    apply List.in_app_iff in Hin as [Hin|[Heq|[]]]; [assumption | contradiction].
  - intros Hsome. apply lookup_insert_is_Some in Hsome as [<-|[Hne Hsome]].
    + apply List.in_app_iff. right. now left.
    + apply List.in_app_iff. left. now apply Hdom.
  - intros Hfw. apply lookup_insert_Some in Hfw as [[<- <-]|[Hne Hfw]].
    + apply lookup_insert_eq.
    + apply Hopen in Hfw. rewrite lookup_insert_ne; [assumption|].
      intros <-. apply Hfresh in Hfw. lia.
  - intros How. apply lookup_insert_Some in How as [[<- <-]|[Hne How]].
    + apply lookup_insert_eq.
    + apply Hopen in How. rewrite lookup_insert_ne; [assumption|].
      intros <-. congruence.
  - intros w p How. apply lookup_insert_Some in How as [[<- <-]|[Hne How]];
      [lia | apply Hfresh in How; lia].
Qed.

(** [removeProtectedFolder] keeps them in step as well. *)
Lemma coherent_removeProtectedFolder d P s :
  coherent s -> coherent (removeProtectedFolder d P s).
Proof.
  intros Hc. unfold removeProtectedFolder.
  destruct (setHas (path_resolve P) (protectedFolders s)) eqn:Hhas;
    [|assumption].
  apply coherent_saveProtectedFolders.
  destruct Hc as (Hnd & Hdom & Hopen & Hfresh).
  apply setHas_In in Hhas.
  destruct (proj1 (Hdom _) Hhas) as [w Hw]. simpl. rewrite Hw.
  assert (Hdel : forall p, In p (setDelete (path_resolve P) (protectedFolders s))
                           <-> In p (protectedFolders s) /\ path_resolve P <> p).
  { intros p. unfold setDelete. rewrite List.filter_In.
    destruct (String.eqb_spec (path_resolve P) p); simpl; intuition congruence. }
  unfold coherent, closeWatcher; simpl. repeat split.
  - now apply List.NoDup_filter.
  - intros Hin. apply Hdel in Hin as [Hin Hne].
    apply Hdom in Hin as [x Hx]. exists x. now rewrite lookup_delete_ne.
  - intros [x Hx]. apply lookup_delete_Some in Hx as [Hne Hx].
    apply Hdel. split; [apply Hdom; eauto | assumption].
  - intros Hfw. apply lookup_delete_Some in Hfw as [Hne Hfw].
    apply lookup_delete_Some. split; [|now apply Hopen].
    intros <-. apply Hopen in Hfw. apply Hopen in Hw. congruence.
  - intros How. apply lookup_delete_Some in How as [Hne How].
    apply lookup_delete_Some. split; [|now apply Hopen].
    intros <-. apply Hopen in How. congruence.
  - intros w' p How. apply lookup_delete_Some in How as [_ How]. eauto.
Qed.

(** C8. Adding the same path twice is the same as adding it once, and
    removing a path that is not in the set leaves the whole state, set and
    watcher map included, as it was.  From a state in which folder set and
    watchers agree, after the two additions the resolved path occurs
    exactly once in the protected-folder set and exactly one open watcher
    watches it, the one registered in the watcher map. *)
Theorem addProtectedFolder_twice_and_remove_absent :
  forall (d1 d2 d3 : bool) (P : string) (s : State),
    let s1 := addProtectedFolder d1 P s in
    let s2 := addProtectedFolder d2 P s1 in
    s2 = s1 /\
    (setHas (path_resolve P) (protectedFolders s) = false ->
       removeProtectedFolder d3 P s = s /\
       protectedFolders (removeProtectedFolder d3 P s) = protectedFolders s /\
       fileWatchers (removeProtectedFolder d3 P s) = fileWatchers s) /\
    (coherent s ->
       count_occ string_dec (protectedFolders s2) (path_resolve P) = 1 /\
       exists w, fileWatchers s2 !! path_resolve P = Some w /\
                 forall w', openWatchers s2 !! w' = Some (path_resolve P)
                            <-> w' = w).
Proof.
  intros d1 d2 d3 P s s1 s2.
  assert (Hs2 : s2 = s1) by apply addProtectedFolder_idempotent.
  rewrite Hs2. split; [reflexivity|]. split.
  - intros Habsent. unfold removeProtectedFolder. rewrite Habsent. auto.
  - intros Hc.
    pose proof (coherent_addProtectedFolder d1 P s Hc) as Hc1.
    pose proof (In_protectedFolders_addProtectedFolder d1 P s) as Hin.
    fold s1 in Hc1, Hin. destruct Hc1 as (Hnd & Hdom & Hopen & Hfresh).
    split.
    + now apply (proj1 (List.NoDup_count_occ' string_dec _) Hnd).
    + destruct (proj1 (Hdom _) Hin) as [w Hw]. exists w.
      split; [assumption|]. intros w'. split.
      * intros How. apply Hopen in How. congruence.
      * intros ->. now apply Hopen.
Qed.

(** ** File-watch events *)

Lemma isAuthorizedAccess_true filePath : isAuthorizedAccess filePath = true.
Proof. apply Z.eqb_refl. Qed.

(** C9 (amended). Every event on a watched folder goes through the
    authorization check, and the check answers "authorized" for every
    event, whichever process caused it: the event is logged as an
    authorized file access and nothing else happens, so no
    [FILE_ACCESS_ATTEMPT] threat and no block action come from a file
    event.  [handleUnauthorizedAccess], when it is called, logs a
    [FILE_ACCESS_ATTEMPT] threat of severity HIGH followed by a
    [FILE_ACCESS_BLOCKED] action, and touches no file. *)
Theorem file_events_are_always_authorized :
  forall (e : FsEvent) (s : State),
    isAuthorizedAccess (filePath e) = true /\
    watcherCallback e s
      = logRecord (LogFileAccess (event e) (filePath e) true) s /\
    existsb isFileAccessAttempt (securityLog (watcherCallback e s))
      = existsb isFileAccessAttempt (securityLog s) /\
    securityLog (handleUnauthorizedAccess (event e) (filePath e) s)
      = securityLog s ++
        [ LogThreat "FILE_ACCESS_ATTEMPT" "HIGH"
            ("Unauthorized file access: " +:+ event e +:+ " on " +:+ filePath e);
          LogAction "FILE_ACCESS_BLOCKED" (filePath e) ] /\
    files (handleUnauthorizedAccess (event e) (filePath e) s) = files s.
Proof.
  intros e s.
  assert (Hcb : watcherCallback e s
                = logRecord (LogFileAccess (event e) (filePath e) true) s).
  { unfold watcherCallback, handleFileEvent.
    now rewrite isAuthorizedAccess_true. }
  repeat split.
  - apply isAuthorizedAccess_true.
  - exact Hcb.
  - rewrite Hcb. simpl. rewrite existsb_app. simpl. now rewrite !orb_false_r.
  - unfold handleUnauthorizedAccess, blockFileAccess. simpl.
    now rewrite <- app_assoc.
Qed.

End WithRuntime.

(** ** Concrete runs, on the reference cipher and the reference [path] *)

Definition key0 : Buffer := [x01; x02; x03; x04].
Definition iv0 : Buffer := repeat x00 16.
Definition secret : Buffer := String.list_byte_of_string "secret".

(** The blob of [secret] with the last byte of its tag overwritten. *)
Definition tamperedBlob : Buffer :=
  <[ length (encrypt key0 iv0 secret) - 1 := xff ]> (encrypt key0 iv0 secret).

(** A vault holding a tampered blob for [/proj/a.py], and one holding no
    blob at all. *)
Definition vaultWithTamperedBlob : State :=
  {| encryptionKey := key0; protectedFolders := []; fileWatchers := ∅;
     tempDecryptedFiles := ∅;
     files := {[ "/proj/a.py.encrypted" := tamperedBlob ]};
     openWatchers := ∅; nextWatcher := 0; securityLog := [];
     protectedFoldersFile := None |}.

Definition vaultWithoutBlob : State := initial key0.

(** An event caused by another process than the agent (pid 1000). *)
Definition foreignEvent : FsEvent :=
  {| event := "change"; filePath := "/proj/a.py"; originPid := 4242 |}.

Lemma decrypt_accepts_tampered_iv_witness :
  length iv0 = 16 /\ 0 < 16 /\ iv0 !! 0 <> Some xff /\
  (<[0 := xff]> (encrypt key0 iv0 secret) <> encrypt key0 iv0 secret /\
   decrypt key0 (<[0 := xff]> (encrypt key0 iv0 secret)) = inr secret).
Proof.
  assert (H1 : length iv0 = 16) by reflexivity.
  assert (H2 : 0 < 16) by lia.
  assert (H3 : iv0 !! 0 <> Some xff) by (vm_compute; discriminate).
  split; [exact H1|]. split; [exact H2|]. split; [exact H3|].
  exact (decrypt_accepts_tampered_iv key0 iv0 secret 0 xff H1 H2 H3).
Defined.

(** C5 as the specification states it fails: for a tampered blob and for a
    missing file the caller gets the same value, [null], although the
    errors caught inside differ. *)
Lemma decryptFile_tamper_not_told_apart_from_missing_file :
  decryptFileBody (nodePath := posixPath) vaultManagerScope 0 "/proj/a.py"
      vaultWithTamperedBlob = inl AuthenticationFailed /\
  decryptFileBody (nodePath := posixPath) vaultManagerScope 0 "/proj/a.py"
      vaultWithoutBlob = inl (ENOENT "/proj/a.py.encrypted") /\
  ~ (fst (decryptFile (nodePath := posixPath) vaultManagerScope 0 "/proj/a.py"
            vaultWithTamperedBlob)
     <> fst (decryptFile (nodePath := posixPath) vaultManagerScope 0 "/proj/a.py"
               vaultWithoutBlob)).
Proof.
  split; [vm_compute; reflexivity|]. split; [vm_compute; reflexivity|].
  intros H. apply H. vm_compute. reflexivity.
Qed.

Lemma decryptFile_null_witness :
  files vaultWithTamperedBlob !! "/proj/a.py.encrypted" = Some tamperedBlob /\
  decrypt key0 tamperedBlob = inl AuthenticationFailed /\
  files vaultWithoutBlob !! "/proj/a.py.encrypted" = None /\
  decryptFile (nodePath := posixPath) vaultManagerScope 0 "/proj/a.py"
    vaultWithTamperedBlob = (None, vaultWithTamperedBlob) /\
  decryptFile (nodePath := posixPath) vaultManagerScope 0 "/proj/a.py"
    vaultWithoutBlob = (None, vaultWithoutBlob).
Proof.
  assert (H1 : files vaultWithTamperedBlob !! "/proj/a.py.encrypted"
               = Some tamperedBlob) by (vm_compute; reflexivity).
  assert (H2 : decrypt (encryptionKey vaultWithTamperedBlob) tamperedBlob
               = inl AuthenticationFailed) by (vm_compute; reflexivity).
  assert (H3 : files vaultWithoutBlob !! "/proj/a.py.encrypted" = None)
    by (vm_compute; reflexivity).
  split; [exact H1|]. split; [exact H2|]. split; [exact H3|]. split.
  - exact (proj2 (proj1 (decryptFile_null_on_auth_failure_and_on_missing_file
                    (nodePath := posixPath) vaultManagerScope 0 "/proj/a.py"
                    vaultWithTamperedBlob) tamperedBlob H1 H2)).
  - exact (proj2 (proj2 (decryptFile_null_on_auth_failure_and_on_missing_file
                    (nodePath := posixPath) vaultManagerScope 0 "/proj/a.py"
                    vaultWithoutBlob) H3)).
Defined.

Lemma addProtectedFolder_twice_witness :
  coherent (initial key0) /\
  (let s2 := addProtectedFolder (nodePath := posixPath) true "/proj"
               (addProtectedFolder (nodePath := posixPath) true "/proj"
                  (initial key0)) in
   count_occ string_dec (protectedFolders s2) "/proj" = 1 /\
   exists w, fileWatchers s2 !! "/proj" = Some w /\
             forall w', openWatchers s2 !! w' = Some "/proj" <-> w' = w).
Proof.
  split; [apply coherent_initial|].
  exact (proj2 (proj2
           (addProtectedFolder_twice_and_remove_absent (nodePath := posixPath)
              true true false "/proj" (initial key0)))
           (coherent_initial key0)).
Defined.

(** C9 as the specification states it fails: an event caused by another
    process than the agent is logged as authorized, and no
    [FILE_ACCESS_ATTEMPT] threat is recorded. *)
Lemma foreign_event_is_not_flagged :
  originPid foreignEvent <> 1000%Z /\
  securityLog (watcherCallback 1000 foreignEvent (initial key0))
    = [LogFileAccess "change" "/proj/a.py" true] /\
  existsb isFileAccessAttempt
    (securityLog (watcherCallback 1000 foreignEvent (initial key0))) = false.
Proof. split; [discriminate|]. split; vm_compute; reflexivity. Qed.

End Vault.

(* ===================================================================== *)
(** * Panic handler                                                       *)
(* ===================================================================== *)

Module Panic.

(** What the handler does to the world, in the order it does it.  Every
    procedure of the handler wraps its body in [try]/[catch] and the logger
    catches its own failures, so a failing file operation never skips a
    later step. *)
Inductive Effect :=
| LogAction (action : string)
| WipeTempFiles | WipeCache | WipeNonSecurityLogs | ClearMemory
| EncryptAllSensitiveFiles | CreateVanishingLocks | ReplaceWithDecoys
| CreateFakeCrashLog | ShowFakeErrorDialog
| WipeAllData
| ProcessExit (code : Z).

(** The arrow function given to [setTimeout] by [activateLockdown]. *)
Inductive Callback := CallDeactivateLockdown.

Record Timer := mkTimer { delay : Z; callback : Callback }.

Record PanicHandler := mkPanicHandler {
  isLockedDown : bool;
  panicMode : bool;
  lockdownDuration : Z;
  timers : list Timer;        (* pending timers, in the order they were set *)
  effects : list Effect;      (* oldest first *)
  exited : bool               (* [process.exit] was called *)
}.

Definition initial : PanicHandler :=
  {| isLockedDown := false; panicMode := false; lockdownDuration := 300000;
     timers := []; effects := []; exited := false |}.

Definition emergencyPassphrases : list string :=
  [ "BLACK_ICE_PROTOCOL"; "DEFENDER_DETECTIVE_EMERGENCY";
    "PANIC_MODE_ACTIVATE"; "SELF_DESTRUCT_SEQUENCE" ].

Definition destructPassphrase : string := "SELF_DESTRUCT_SEQUENCE".

(** [s.includes(pat)]. *)
Fixpoint includes (s pat : string) : bool :=
  String.prefix pat s ||
  match s with
  | EmptyString => false
  | String _ s' => includes s' pat
  end.

(** [toUpperCase] on the ASCII letters. *)
Definition upperAscii (c : ascii) : ascii :=
  let n := nat_of_ascii c in
  if (97 <=? n) && (n <=? 122) then ascii_of_nat (n - 32) else c.

Fixpoint toUpperCase (s : string) : string :=
  match s with
  | EmptyString => EmptyString
  | String c s' => String (upperAscii c) (toUpperCase s')
  end.

Definition perform (e : Effect) (h : PanicHandler) : PanicHandler :=
  {| isLockedDown := isLockedDown h; panicMode := panicMode h;
     lockdownDuration := lockdownDuration h; timers := timers h;
     effects := effects h ++ [e]; exited := exited h |}.

Definition setLockedDown (b : bool) (h : PanicHandler) : PanicHandler :=
  {| isLockedDown := b; panicMode := panicMode h;
     lockdownDuration := lockdownDuration h; timers := timers h;
     effects := effects h; exited := exited h |}.

Definition setPanicMode (b : bool) (h : PanicHandler) : PanicHandler :=
  {| isLockedDown := isLockedDown h; panicMode := b;
     lockdownDuration := lockdownDuration h; timers := timers h;
     effects := effects h; exited := exited h |}.

Definition setTimers (ts : list Timer) (h : PanicHandler) : PanicHandler :=
  {| isLockedDown := isLockedDown h; panicMode := panicMode h;
     lockdownDuration := lockdownDuration h; timers := ts;
     effects := effects h; exited := exited h |}.

(** [setTimeout(callback, delay)]. *)
Definition setTimeout (cb : Callback) (d : Z) (h : PanicHandler) : PanicHandler :=
  setTimers (timers h ++ [{| delay := d; callback := cb |}]) h.

(** [process.exit(code)]. *)
Definition processExit (code : Z) (h : PanicHandler) : PanicHandler :=
  let h' := perform (ProcessExit code) h in
  {| isLockedDown := isLockedDown h'; panicMode := panicMode h';
     lockdownDuration := lockdownDuration h'; timers := timers h';
     effects := effects h'; exited := true |}.

Definition logAction (action : string) : PanicHandler -> PanicHandler :=
  perform (LogAction action).

Section WithPlatform.

(** [process.platform]. *)
Variable platform : string.

Definition wipeSensitiveData (h : PanicHandler) : PanicHandler :=
  let h := perform WipeTempFiles h in
  let h := perform WipeCache h in
  let h := perform WipeNonSecurityLogs h in
  perform ClearMemory h.

Definition encryptAllSensitiveFiles := perform EncryptAllSensitiveFiles.
Definition disableNetworkAccess := logAction "NETWORK_ACCESS_DISABLED".
Definition enableNetworkAccess := logAction "NETWORK_ACCESS_ENABLED".
Definition createVanishingLocks := perform CreateVanishingLocks.
Definition removeVanishingLocks := logAction "VANISHING_LOCKS_REMOVED".

(** [vaultManager.activateDecoyFiles()]. *)
Definition activateDecoyFiles (h : PanicHandler) : PanicHandler :=
  logAction "DECOY_FILES_ACTIVATED" (perform ReplaceWithDecoys h).

(** [deactivateLockdown()]. *)
Definition deactivateLockdown (h : PanicHandler) : PanicHandler :=
  if negb (isLockedDown h) then h
  else
    let h := setLockedDown false h in
    let h := removeVanishingLocks h in
    let h := enableNetworkAccess h in
    logAction "LOCKDOWN_DEACTIVATED" h.

(** [activateLockdown()]. *)
Definition activateLockdown (h : PanicHandler) : PanicHandler :=
  if isLockedDown h then h
  else
    let h := setLockedDown true h in
    let h := encryptAllSensitiveFiles h in
    let h := disableNetworkAccess h in
    let h := createVanishingLocks h in
    let h := activateDecoyFiles h in
    let h := logAction "LOCKDOWN_ACTIVATED" h in
    setTimeout CallDeactivateLockdown (lockdownDuration h) h.

Definition performLockdown := activateLockdown.
Definition performUnlockdown := deactivateLockdown.

Definition runCallback (cb : Callback) (h : PanicHandler) : PanicHandler :=
  match cb with
  | CallDeactivateLockdown => deactivateLockdown h
  end.

(** The pending timer number [i] expires: it leaves the pending list and
    its callback runs. *)
Definition fireTimer (i : nat) (h : PanicHandler) : PanicHandler :=
  match timers h !! i with
  | Some t => runCallback (callback t) (setTimers (delete i (timers h)) h)
  | None => h
  end.

(** [fakeApplicationCrash()]. *)
Definition fakeApplicationCrash (h : PanicHandler) : PanicHandler :=
  let h := perform CreateFakeCrashLog h in
  let h := perform ShowFakeErrorDialog h in
  logAction "FAKE_CRASH_EXECUTED" h.

Definition wipeAllData := perform WipeAllData.

Definition deleteApplicationFiles :=
  logAction "APPLICATION_FILES_DELETION_REQUESTED".

Definition removeRegistryEntries (h : PanicHandler) : PanicHandler :=
  if String.eqb platform "win32"
  then logAction "REGISTRY_ENTRIES_REMOVAL_REQUESTED" h
  else h.

(** [selfObliterate()]. *)
Definition selfObliterate (h : PanicHandler) : PanicHandler :=
  let h := wipeAllData h in
  let h := deleteApplicationFiles h in
  let h := removeRegistryEntries h in
  let h := logAction "SELF_OBLITERATION_COMPLETE" h in
  processExit 0 h.

(** [executeEmergencyProcedures(trigger)]. *)
Definition executeEmergencyProcedures (trigger : string) (h : PanicHandler)
  : PanicHandler :=
  let h := wipeSensitiveData h in
  let h := performLockdown h in
  let h := fakeApplicationCrash h in
  if String.eqb trigger "SELF_DESTRUCT_SEQUENCE" then selfObliterate h else h.

(** [activatePanicMode(trigger)]. *)
Definition activatePanicMode (trigger : string) (h : PanicHandler) : PanicHandler :=
  if panicMode h then h
  else
    let h := setPanicMode true h in
    let h := logAction "PANIC_MODE_ACTIVATED" h in
    executeEmergencyProcedures trigger h.

(** The passphrase [checkForPanicWords] stops at: the first one, in the
    order of the set, that the input includes. *)
Fixpoint firstPassphrase (input : string) (ps : list string) : option string :=
  match ps with
  | [] => None
  | p :: ps' => if includes input p then Some p else firstPassphrase input ps'
  end.

(** [checkForPanicWords(input)]. *)
Definition checkForPanicWords (input : string) (h : PanicHandler) : PanicHandler :=
  match firstPassphrase input emergencyPassphrases with
  | Some passphrase => activatePanicMode passphrase h
  | None => h
  end.

(** [shutdown()]. *)
Definition shutdown (h : PanicHandler) : PanicHandler :=
  if isLockedDown h then deactivateLockdown h else h.

(** Everything that calls into the handler: the dashboard and tray
    commands, the panic-word detection on standard input and on the
    environment, a direct panic trigger, an expiring timer, shutdown.  No
    call site reads the [emergencyProcedures] table. *)
Inductive Command :=
| CmdActivateLockdown
| CmdDeactivateLockdown
| CmdStdin (data : string)
| CmdEnvValue (value : string)
| CmdActivatePanicMode (trigger : string)
| CmdTimerFires (i : nat)
| CmdShutdown.

(** One command; a process that has exited runs nothing. *)
Definition step (h : PanicHandler) (c : Command) : PanicHandler :=
  if exited h then h
  else match c with
       | CmdActivateLockdown => activateLockdown h
       | CmdDeactivateLockdown => deactivateLockdown h
       | CmdStdin data => checkForPanicWords (toUpperCase data) h
       | CmdEnvValue value => checkForPanicWords (toUpperCase value) h
       | CmdActivatePanicMode trigger => activatePanicMode trigger h
       | CmdTimerFires i => fireTimer i h
       | CmdShutdown => shutdown h
       end.

Definition run (cs : list Command) (h : PanicHandler) : PanicHandler :=
  fold_left step cs h.

(** The commands that carry the destruct passphrase. *)
Definition isDestructTrigger (c : Command) : bool :=
  match c with
  | CmdStdin data => includes (toUpperCase data) destructPassphrase
  | CmdEnvValue value => includes (toUpperCase value) destructPassphrase
  | CmdActivatePanicMode trigger => String.eqb trigger destructPassphrase
  | _ => false
  end.

Definition wipeEffects : list Effect :=
  [WipeTempFiles; WipeCache; WipeNonSecurityLogs; ClearMemory].

Definition lockdownEffects : list Effect :=
  [ EncryptAllSensitiveFiles; LogAction "NETWORK_ACCESS_DISABLED";
    CreateVanishingLocks; ReplaceWithDecoys; LogAction "DECOY_FILES_ACTIVATED";
    LogAction "LOCKDOWN_ACTIVATED" ].

Definition unlockEffects : list Effect :=
  [ LogAction "VANISHING_LOCKS_REMOVED"; LogAction "NETWORK_ACCESS_ENABLED";
    LogAction "LOCKDOWN_DEACTIVATED" ].

Definition fakeCrashEffects : list Effect :=
  [CreateFakeCrashLog; ShowFakeErrorDialog; LogAction "FAKE_CRASH_EXECUTED"].

Definition isExit (e : Effect) : bool :=
  match e with ProcessExit _ => true | _ => false end.

Definition isDeactivationEntry (e : Effect) : bool :=
  match e with
  | LogAction a => String.eqb a "LOCKDOWN_DEACTIVATED"
  | _ => false
  end.

(** ** Lemmas *)

Lemma exited_activateLockdown h : exited (activateLockdown h) = exited h.
Proof. unfold activateLockdown. now destruct (isLockedDown h). Qed.

Lemma exited_deactivateLockdown h : exited (deactivateLockdown h) = exited h.
Proof. unfold deactivateLockdown. now destruct (isLockedDown h). Qed.

Lemma effects_activateLockdown h :
  effects (activateLockdown h)
    = effects h ++ (if isLockedDown h then [] else lockdownEffects).
Proof.
  unfold activateLockdown. destruct (isLockedDown h); simpl.
  - now rewrite app_nil_r.
  - now rewrite <- !app_assoc.
Qed.

Lemma isLockedDown_activateLockdown h : isLockedDown (activateLockdown h) = true.
Proof. unfold activateLockdown. now destruct (isLockedDown h) eqn:E. Qed.

Lemma activateLockdown_idempotent h :
  activateLockdown (activateLockdown h) = activateLockdown h.
Proof.
  unfold activateLockdown at 1. now rewrite isLockedDown_activateLockdown.
Qed.

(** What the first three steps of the emergency procedures do. *)
Definition afterFakeCrash (h : PanicHandler) : PanicHandler :=
  fakeApplicationCrash (performLockdown (wipeSensitiveData h)).

Lemma effects_afterFakeCrash h :
  effects (afterFakeCrash h)
    = effects h ++ wipeEffects
        ++ (if isLockedDown h then [] else lockdownEffects) ++ fakeCrashEffects.
Proof.
  unfold afterFakeCrash, fakeApplicationCrash, performLockdown. simpl.
  rewrite effects_activateLockdown. simpl.
  destruct (isLockedDown h); simpl; now rewrite <- !app_assoc.
Qed.

Lemma exited_afterFakeCrash h : exited (afterFakeCrash h) = exited h.
Proof.
  unfold afterFakeCrash, fakeApplicationCrash, performLockdown. simpl.
  now rewrite exited_activateLockdown.
Qed.

Lemma isLockedDown_afterFakeCrash h : isLockedDown (afterFakeCrash h) = true.
Proof.
  unfold afterFakeCrash, fakeApplicationCrash, performLockdown. simpl.
  apply isLockedDown_activateLockdown.
Qed.

Lemma executeEmergencyProcedures_generic trigger h :
  trigger <> destructPassphrase ->
  executeEmergencyProcedures trigger h = afterFakeCrash h.
Proof.
  intros Hne. unfold executeEmergencyProcedures.
  destruct (String.eqb_spec trigger "SELF_DESTRUCT_SEQUENCE"); [contradiction|].
  reflexivity.
Qed.

Lemma executeEmergencyProcedures_destruct h :
  executeEmergencyProcedures destructPassphrase h = selfObliterate (afterFakeCrash h).
Proof. reflexivity. Qed.

Lemma exited_selfObliterate h : exited (selfObliterate h) = true.
Proof. reflexivity. Qed.

Lemma effects_selfObliterate h :
  exists requested,
    effects (selfObliterate h)
      = effects h ++ [WipeAllData] ++ requested
          ++ [LogAction "SELF_OBLITERATION_COMPLETE"; ProcessExit 0] /\
    forallb (fun e => negb (isExit e)) requested = true.
Proof.
  unfold selfObliterate, removeRegistryEntries, deleteApplicationFiles, wipeAllData.
  destruct (String.eqb platform "win32"); simpl.
  - exists [LogAction "APPLICATION_FILES_DELETION_REQUESTED";
            LogAction "REGISTRY_ENTRIES_REMOVAL_REQUESTED"].
    split; [now rewrite <- !app_assoc | reflexivity].
  - exists [LogAction "APPLICATION_FILES_DELETION_REQUESTED"].
    split; [now rewrite <- !app_assoc | reflexivity].
Qed.

Lemma exited_executeEmergencyProcedures trigger h :
  exited h = false ->
  (exited (executeEmergencyProcedures trigger h) = true
   <-> trigger = destructPassphrase).
Proof.
  intros Hlive. split.
  - intros Hexit.
    destruct (String.eqb_spec trigger destructPassphrase) as [|Hne]; [assumption|].
    rewrite executeEmergencyProcedures_generic, exited_afterFakeCrash in Hexit
      by assumption. congruence.
  - intros ->. rewrite executeEmergencyProcedures_destruct.
    apply exited_selfObliterate.
Qed.

Lemma exited_activatePanicMode trigger h :
  exited h = false ->
  exited (activatePanicMode trigger h) = true ->
  trigger = destructPassphrase.
Proof.
  intros Hlive. unfold activatePanicMode.
  destruct (panicMode h); [congruence|].
  apply exited_executeEmergencyProcedures. exact Hlive.
Qed.

Lemma firstPassphrase_includes input ps p :
  firstPassphrase input ps = Some p -> includes input p = true.
Proof.
  induction ps as [|q ps IH]; simpl; [discriminate|].
  destruct (includes input q) eqn:E; [|exact IH].
  intros [= <-]. exact E.
Qed.

Lemma exited_checkForPanicWords input h :
  exited h = false ->
  exited (checkForPanicWords input h) = true ->
  includes input destructPassphrase = true.
Proof.
  intros Hlive. unfold checkForPanicWords.
  destruct (firstPassphrase input emergencyPassphrases) as [p|] eqn:E;
    [|congruence].
  intros Hexit. apply exited_activatePanicMode in Hexit; [|assumption].
  subst p. exact (firstPassphrase_includes _ _ _ E).
Qed.

Lemma exited_fireTimer i h : exited (fireTimer i h) = exited h.
Proof.
  unfold fireTimer. destruct (timers h !! i) as [[d []]|]; [|reflexivity].
  simpl. now rewrite exited_deactivateLockdown.
Qed.

(** A live process exits on a command only if the command carries the
    destruct passphrase. *)
Lemma step_exits h c :
  exited h = false -> exited (step h c) = true -> isDestructTrigger c = true.
Proof.
  intros Hlive. unfold step. rewrite Hlive.
  destruct c as [| |data|value|trigger|i|]; simpl.
  - rewrite exited_activateLockdown. congruence.
  - rewrite exited_deactivateLockdown. congruence.
  - now apply exited_checkForPanicWords.
  - now apply exited_checkForPanicWords.
  - intros Hexit. apply exited_activatePanicMode in Hexit; [|assumption].
    subst. apply String.eqb_refl.
  - rewrite exited_fireTimer. congruence.
  - unfold shutdown. destruct (isLockedDown h); [|congruence].
    rewrite exited_deactivateLockdown. congruence.
Qed.

Lemma run_exits cs : forall h,
  exited h = false -> exited (run cs h) = true ->
  existsb isDestructTrigger cs = true.
Proof.
  induction cs as [|c cs IH]; intros h Hlive Hexit; simpl in *.
  - congruence.
  - destruct (exited (step h c)) eqn:E.
    + now rewrite (step_exits h c Hlive E).
    + rewrite (IH _ E Hexit). apply orb_true_r.
Qed.

(** C4. With a trigger other than the destruct passphrase the emergency
    procedures run the wipe, the lockdown and the fake crash, in that
    order, and the process is not terminated.  The process is terminated
    exactly when the trigger is the destruct passphrase, in which case the
    same three steps come first and [process.exit] comes last; and over
    every sequence of commands to the handler, the process exits only if
    one of them carried the destruct passphrase. *)
Theorem panic_steps_and_self_obliteration :
  (forall trigger h,
      trigger <> destructPassphrase -> exited h = false ->
      effects (executeEmergencyProcedures trigger h)
        = effects h ++ wipeEffects
            ++ (if isLockedDown h then [] else lockdownEffects)
            ++ fakeCrashEffects /\
      isLockedDown (executeEmergencyProcedures trigger h) = true /\
      exited (executeEmergencyProcedures trigger h) = false) /\
  (forall trigger h,
      trigger <> destructPassphrase ->
      panicMode h = false -> isLockedDown h = false -> exited h = false ->
      effects (activatePanicMode trigger h)
        = effects h ++ [LogAction "PANIC_MODE_ACTIVATED"] ++ wipeEffects
            ++ lockdownEffects ++ fakeCrashEffects /\
      exited (activatePanicMode trigger h) = false) /\
  (forall trigger h,
      exited h = false ->
      (exited (executeEmergencyProcedures trigger h) = true
       <-> trigger = destructPassphrase)) /\
  (forall h,
      exists requested,
        effects (executeEmergencyProcedures destructPassphrase h)
          = (effects h ++ wipeEffects
               ++ (if isLockedDown h then [] else lockdownEffects)
               ++ fakeCrashEffects)
            ++ [WipeAllData] ++ requested
            ++ [LogAction "SELF_OBLITERATION_COMPLETE"; ProcessExit 0] /\
        forallb (fun e => negb (isExit e)) requested = true) /\
  (forall cs,
      exited (run cs initial) = true -> existsb isDestructTrigger cs = true).
Proof.
  split; [|split; [|split; [|split]]].
  - intros trigger h Hne Hlive.
    rewrite executeEmergencyProcedures_generic by assumption.
    rewrite effects_afterFakeCrash, isLockedDown_afterFakeCrash,
      exited_afterFakeCrash. auto.
  - intros trigger h Hne Hpanic Hlock Hlive.
    unfold activatePanicMode. rewrite Hpanic.
    rewrite executeEmergencyProcedures_generic by assumption.
    rewrite effects_afterFakeCrash, exited_afterFakeCrash. simpl.
    rewrite Hlock. split; [now rewrite <- !app_assoc | assumption].
  - intros trigger h. apply exited_executeEmergencyProcedures.
  - intros h. rewrite executeEmergencyProcedures_destruct.
    destruct (effects_selfObliterate (afterFakeCrash h)) as [requested [He Hr]].
    exists requested. now rewrite He, effects_afterFakeCrash.
  - intros cs. now apply run_exits.
Qed.

(** Entry into panic mode is guarded: a trigger that arrives while panic
    mode is on does nothing. *)
Lemma activatePanicMode_when_active trigger h :
  panicMode h = true -> activatePanicMode trigger h = h.
Proof. intros H. unfold activatePanicMode. now rewrite H. Qed.

(** Manual deactivation leaves the pending timer where it is. *)
Lemma timers_deactivateLockdown h : timers (deactivateLockdown h) = timers h.
Proof. unfold deactivateLockdown. now destruct (isLockedDown h). Qed.

Lemma deactivateLockdown_when_unlocked h :
  isLockedDown h = false -> deactivateLockdown h = h.
Proof. intros H. unfold deactivateLockdown. now rewrite H. Qed.

(** C7 (amended). Activating lockdown twice in a row performs the lockdown
    side effects once and schedules one deactivation timer.  A manual
    [deactivateLockdown] before the timer fires writes one deactivation
    entry and leaves the timer pending; when that timer fires with the
    lockdown still off, its callback does nothing, so no second
    deactivation entry is written. *)
Theorem lockdown_twice_and_pending_timer :
  forall h : PanicHandler,
    isLockedDown h = false ->
    let h1 := activateLockdown h in
    let h2 := activateLockdown h1 in
    let h3 := deactivateLockdown h2 in
    let h4 := fireTimer (length (timers h)) h3 in
    h2 = h1 /\
    effects h2 = effects h ++ lockdownEffects /\
    timers h2
      = timers h ++ [{| delay := lockdownDuration h;
                        callback := CallDeactivateLockdown |}] /\
    timers h3 = timers h2 /\
    effects h3 = effects h2 ++ unlockEffects /\
    isLockedDown h3 = false /\
    timers h4 = timers h /\
    effects h4 = effects h3.
Proof.
  intros h Hlock. cbv zeta.
  rewrite activateLockdown_idempotent.
  assert (Ht : timers (activateLockdown h)
               = timers h ++ [{| delay := lockdownDuration h;
                                 callback := CallDeactivateLockdown |}]).
  { unfold activateLockdown. now rewrite Hlock. }
  assert (He : effects (activateLockdown h) = effects h ++ lockdownEffects).
  { now rewrite effects_activateLockdown, Hlock. }
  pose proof (isLockedDown_activateLockdown h) as Hl.
  pose proof (timers_deactivateLockdown (activateLockdown h)) as Ht3.
  assert (Hd : effects (deactivateLockdown (activateLockdown h))
               = effects (activateLockdown h) ++ unlockEffects /\
               isLockedDown (deactivateLockdown (activateLockdown h)) = false).
  { unfold deactivateLockdown. rewrite Hl. simpl.
    split; [now rewrite <- !app_assoc | reflexivity]. }
  destruct Hd as [He3 Hl3].
  assert (Hfire : timers (deactivateLockdown (activateLockdown h))
                    !! length (timers h)
                  = Some {| delay := lockdownDuration h;
                            callback := CallDeactivateLockdown |}).
  { rewrite Ht3, Ht. now apply list_lookup_middle. }
  split; [reflexivity|]. split; [exact He|]. split; [exact Ht|].
  split; [exact Ht3|]. split; [exact He3|]. split; [exact Hl3|].
  unfold fireTimer. rewrite Hfire. simpl.
  rewrite deactivateLockdown_when_unlocked by exact Hl3. simpl.
  split; [|reflexivity].
  rewrite Ht3, Ht, delete_middle. apply app_nil_r.
Qed.

(** The timer of an earlier lockdown, left pending by a manual
    deactivation, ends a later lockdown when it fires. *)
Lemma stale_timer_ends_later_lockdown :
  let h := activateLockdown (deactivateLockdown (activateLockdown initial)) in
  isLockedDown h = true /\
  length (timers h) = 2 /\
  isLockedDown (fireTimer 0 h) = false /\
  length (List.filter isDeactivationEntry (effects (fireTimer 0 h))) = 2.
Proof. repeat split; vm_compute; reflexivity. Qed.

End WithPlatform.

(** ** Concrete runs *)

Lemma panic_steps_witness :
  "BLACK_ICE_PROTOCOL" <> destructPassphrase /\
  panicMode initial = false /\ isLockedDown initial = false /\
  exited initial = false /\
  effects (activatePanicMode "win32" "BLACK_ICE_PROTOCOL" initial)
    = effects initial ++ [LogAction "PANIC_MODE_ACTIVATED"] ++ wipeEffects
        ++ lockdownEffects ++ fakeCrashEffects /\
  exited (activatePanicMode "win32" "BLACK_ICE_PROTOCOL" initial) = false.
Proof.
  assert (H1 : "BLACK_ICE_PROTOCOL" <> destructPassphrase) by discriminate.
  assert (H2 : panicMode initial = false) by reflexivity.
  assert (H3 : isLockedDown initial = false) by reflexivity.
  assert (H4 : exited initial = false) by reflexivity.
  split; [exact H1|]. split; [exact H2|]. split; [exact H3|]. split; [exact H4|].
  exact (proj1 (proj2 (panic_steps_and_self_obliteration "win32"))
           "BLACK_ICE_PROTOCOL" initial H1 H2 H3 H4).
Defined.

(** C7 as the specification states it fails: after a manual deactivation
    the deactivation timer of the lockdown is still pending. *)
Lemma deactivateLockdown_does_not_cancel_timer :
  timers (deactivateLockdown (activateLockdown initial))
    = [{| delay := 300000; callback := CallDeactivateLockdown |}] /\
  ~ (timers (deactivateLockdown (activateLockdown initial)) = []).
Proof. split; [reflexivity | discriminate]. Qed.

Lemma lockdown_twice_witness :
  isLockedDown initial = false /\
  (let h1 := activateLockdown initial in
   let h2 := activateLockdown h1 in
   let h3 := deactivateLockdown h2 in
   let h4 := fireTimer (length (timers initial)) h3 in
   h2 = h1 /\
   effects h2 = effects initial ++ lockdownEffects /\
   timers h2
     = timers initial ++ [{| delay := lockdownDuration initial;
                             callback := CallDeactivateLockdown |}] /\
   timers h3 = timers h2 /\
   effects h3 = effects h2 ++ unlockEffects /\
   isLockedDown h3 = false /\
   timers h4 = timers initial /\
   effects h4 = effects h3).
Proof.
  split; [reflexivity|].
  exact (lockdown_twice_and_pending_timer initial eq_refl).
Defined.

End Panic.

(* ===================================================================== *)
(** * Security logger                                                     *)
(* ===================================================================== *)

Module Logger.

Record LogEntry := mkLogEntry {
  type : string;
  timestamp : string;
  level : string;
  payload : string
}.

(** The logger object and the log directory: the files of [logDir] in the
    order [readdir] lists them, each with its content. *)
Record SecurityLogger := mkSecurityLogger {
  logDir : list (string * string);
  maxLogSize : nat;
  maxLogFiles : nat;
  currentLogFile : option string;
  isInitialized : bool
}.

Definition withLogDir (d : list (string * string)) (s : SecurityLogger)
  : SecurityLogger :=
  {| logDir := d; maxLogSize := maxLogSize s; maxLogFiles := maxLogFiles s;
     currentLogFile := currentLogFile s; isInitialized := isInitialized s |}.

Definition withCurrentLogFile (f : string) (s : SecurityLogger) : SecurityLogger :=
  {| logDir := logDir s; maxLogSize := maxLogSize s; maxLogFiles := maxLogFiles s;
     currentLogFile := Some f; isInitialized := isInitialized s |}.

(** ** The file system of the log directory *)

Fixpoint lookupFile (f : string) (d : list (string * string)) : option string :=
  match d with
  | [] => None
  | (n, c) :: d' => if String.eqb n f then Some c else lookupFile f d'
  end.

(** [fs.writeFile]: replace the content, or create the file. *)
Fixpoint writeFile (f data : string) (d : list (string * string))
  : list (string * string) :=
  match d with
  | [] => [(f, data)]
  | (n, c) :: d' =>
      if String.eqb n f then (n, data) :: d' else (n, c) :: writeFile f data d'
  end.

(** [fs.appendFile]: extend the content, or create the file. *)
Fixpoint appendFile (f data : string) (d : list (string * string))
  : list (string * string) :=
  match d with
  | [] => [(f, data)]
  | (n, c) :: d' =>
      if String.eqb n f then (n, c +:+ data) :: d'
      else (n, c) :: appendFile f data d'
  end.

(** [fs.unlink] of a file that exists. *)
Definition unlink (f : string) (d : list (string * string))
  : list (string * string) :=
  List.filter (fun e => negb (String.eqb (fst e) f)) d.

(** ** Strings *)

Fixpoint mapString (g : ascii -> ascii) (s : string) : string :=
  match s with
  | EmptyString => EmptyString
  | String c s' => String (g c) (mapString g s')
  end.

Definition startsWith (s pre : string) : bool := String.prefix pre s.

Definition endsWith (s suf : string) : bool :=
  (String.length suf <=? String.length s) &&
  String.eqb
    (String.substring (String.length s - String.length suf) (String.length suf) s)
    suf.

(** The line feed. *)
Definition newline : string := String (ascii_of_nat 10) EmptyString.

(** [.replace(/[:.]/g, '-')]. *)
Definition colonDotToDash (c : ascii) : ascii :=
  if Ascii.eqb c ":"%char || Ascii.eqb c "."%char then "-"%char else c.

(** [.replace(/-/g, ':')]; the [.replace(/-/g, '.')] that follows it in the
    source finds no dash left. *)
Definition dashToColon (c : ascii) : ascii :=
  if Ascii.eqb c "-"%char then ":"%char else c.

Definition logFileNameAt (isoNow : string) : string :=
  "security_log_" +:+ mapString colonDotToDash isoNow +:+ ".enc".

Definition isLogFileName (file : string) : bool :=
  startsWith file "security_log_" && endsWith file ".enc".

(** ** Sorting

    [Array.prototype.sort] with a comparator: a stable sort, a comparator
    result of [NaN] counting as [0]. *)
Section Sort.
Context {A : Type}.
Variable cmp : A -> A -> option Z.

Definition comesFirst (x y : A) : bool :=
  match cmp x y with
  | Some v => (v <=? 0)%Z
  | None => true
  end.

Fixpoint insertSorted (x : A) (l : list A) : list A :=
  match l with
  | [] => [x]
  | y :: l' => if comesFirst x y then x :: y :: l' else y :: insertSorted x l'
  end.

Definition sortBy (l : list A) : list A := fold_right insertSorted [] l.

Lemma insertSorted_perm x l : Permutation (insertSorted x l) (x :: l).
Proof.
  induction l as [|y l IH]; simpl; [reflexivity|].
  destruct (comesFirst x y); [reflexivity|].
  rewrite IH. apply perm_swap.
Qed.

Lemma sortBy_perm l : Permutation (sortBy l) l.
Proof.
  induction l as [|x l IH]; simpl; [reflexivity|].
  rewrite insertSorted_perm. now constructor.
Qed.

End Sort.

(** ** The operations of the logger *)

Section WithRuntime.

(** The hexadecimal AES-256-CBC encryption of the JSON form of an entry
    under the logger key ([crypto.createCipher] takes no IV). *)
Variable cbcHex : LogEntry -> string.

(** [new Date(s).getTime()]; [None] is [NaN]. *)
Variable dateParse : string -> option Z.

(** Whether [fs.unlink] of a file fails (the failure is caught). *)
Variable unlinkFails : string -> bool.

(** [encryptLogEntry(logEntry)]; [ivHex] is the hexadecimal form of the
    sixteen random bytes. *)
Definition encryptLogEntry (ivHex : string) (logEntry : LogEntry) : string :=
  ivHex +:+ ":" +:+ cbcHex logEntry.

(** [createNewLogFile()] at the time [isoNow] ([new Date().toISOString()]). *)
Definition createNewLogFile (isoNow ivHex : string) (s : SecurityLogger)
  : SecurityLogger :=
  let logFileName := logFileNameAt isoNow in
  let s := withCurrentLogFile logFileName s in
  let initialData :=
    encryptLogEntry ivHex
      {| type := "SYSTEM"; timestamp := isoNow; level := "INFO";
         payload := "Log file created" |} in
  withLogDir (writeFile logFileName initialData (logDir s)) s.

(** [extractTimestampFromFileName(fileName)]; [nowMs] is [Date.now()].  It
    is called on the names that passed the filter of [cleanupOldLogFiles]
    only; on such a name (without line breaks) the pattern
    [/security_log_(.+)\.enc/] matches exactly when something stands between
    the prefix and the extension, and captures that. *)
Definition extractTimestampFromFileName (nowMs : Z) (fileName : string)
  : option Z :=
  let inner :=
    String.substring 13 (String.length fileName - 17) fileName in
  if String.eqb inner "" then Some nowMs
  else dateParse (mapString dashToColon inner).

(** The comparator [(a, b) => b.timestamp - a.timestamp]. *)
Definition byTimestampDesc (a b : string * option Z) : option Z :=
  match snd b, snd a with
  | Some tb, Some ta => Some (tb - ta)%Z
  | _, _ => None
  end.

Definition unlinkCaught (d : list (string * string)) (f : string)
  : list (string * string) :=
  if unlinkFails f then d else unlink f d.

(** The array [logFiles] of [cleanupOldLogFiles]. *)
Definition sortedLogFiles (nowMs : Z) (s : SecurityLogger)
  : list (string * option Z) :=
  sortBy byTimestampDesc
    (map (fun file => (file, extractTimestampFromFileName nowMs file))
       (List.filter isLogFileName (map fst (logDir s)))).

(** [cleanupOldLogFiles()]. *)
Definition cleanupOldLogFiles (nowMs : Z) (s : SecurityLogger) : SecurityLogger :=
  let logFiles := sortedLogFiles nowMs s in
  if maxLogFiles s <? length logFiles then
    let filesToDelete := skipn (maxLogFiles s) logFiles in
    withLogDir (fold_left unlinkCaught (map fst filesToDelete) (logDir s)) s
  else s.

(** [rotateLogFile()]. *)
Definition rotateLogFile (isoNow ivHex : string) (nowMs : Z) (s : SecurityLogger)
  : SecurityLogger :=
  cleanupOldLogFiles nowMs (createNewLogFile isoNow ivHex s).

(** [checkLogRotation()], run every five minutes by [setupLogRotation] and
    once at shutdown. *)
Definition checkLogRotation (isoNow ivHex : string) (nowMs : Z) (s : SecurityLogger)
  : SecurityLogger :=
  match currentLogFile s with
  | None => s
  | Some f =>
      match lookupFile f (logDir s) with
      | None => s
      | Some content =>
          if maxLogSize s <? String.length content
          then rotateLogFile isoNow ivHex nowMs s
          else s
      end
  end.

(** [writeLogEntry(logEntry)]. *)
Definition writeLogEntry (ivHex : string) (logEntry : LogEntry) (s : SecurityLogger)
  : SecurityLogger :=
  if negb (isInitialized s) then s
  else
    let encryptedData := encryptLogEntry ivHex logEntry in
    match currentLogFile s with
    | Some f => withLogDir (appendFile f (encryptedData +:+ newline) (logDir s)) s
    | None => s
    end.

(** The number of log files in the directory. *)
Definition logFileCount (s : SecurityLogger) : nat :=
  length (List.filter isLogFileName (map fst (logDir s))).

(** ** Lemmas *)

Lemma lookupFile_appendFile f data d content :
  lookupFile f d = Some content ->
  lookupFile f (appendFile f data d) = Some (content +:+ data).
Proof.
  induction d as [|[n c] d IH]; simpl; [discriminate|].
  destruct (String.eqb n f) eqn:E; simpl; rewrite E.
  - now intros [= ->].
  - exact IH.
Qed.

Lemma currentLogFile_writeLogEntry ivHex logEntry s :
  currentLogFile (writeLogEntry ivHex logEntry s) = currentLogFile s.
Proof.
  unfold writeLogEntry. destruct (isInitialized s); simpl; [|reflexivity].
  destruct (currentLogFile s) eqn:E; simpl; congruence.
Qed.

Lemma currentLogFile_cleanupOldLogFiles nowMs s :
  currentLogFile (cleanupOldLogFiles nowMs s) = currentLogFile s.
Proof.
  unfold cleanupOldLogFiles.
  now destruct (maxLogFiles s <? length (sortedLogFiles nowMs s)).
Qed.

Definition notAmong (fs : list string) (n : string) : bool :=
  negb (existsb (String.eqb n) fs).

Lemma map_fst_unlink f d :
  map fst (unlink f d)
    = List.filter (fun n => negb (String.eqb n f)) (map fst d).
Proof.
  unfold unlink. induction d as [|[n c] d IH]; simpl; [reflexivity|].
  destruct (String.eqb n f); simpl; now rewrite IH.
Qed.

Lemma filter_notAmong_cons f fs names :
  List.filter (notAmong fs) (List.filter (fun n => negb (String.eqb n f)) names)
    = List.filter (notAmong (f :: fs)) names.
Proof.
  induction names as [|n names IH]; simpl; [reflexivity|].
  unfold notAmong at 2. simpl.
  destruct (String.eqb n f); simpl; [exact IH|].
  fold (notAmong fs n). destruct (notAmong fs n); now rewrite IH.
Qed.

(** When no [unlink] fails, the loop over [filesToDelete] removes exactly
    the listed names. *)
Lemma map_fst_unlink_all fs : forall d,
  (forall f, unlinkFails f = false) ->
  map fst (fold_left unlinkCaught fs d) = List.filter (notAmong fs) (map fst d).
Proof.
  induction fs as [|f fs IH]; intros d Hok; simpl.
  - induction (map fst d) as [|n l IHl]; simpl; [reflexivity | now rewrite <- IHl].
  - unfold unlinkCaught at 2. rewrite Hok, IH, map_fst_unlink by assumption.
    apply filter_notAmong_cons.
Qed.

Lemma filter_length_perm {A} (p : A -> bool) (l l' : list A) :
  Permutation l l' -> length (List.filter p l) = length (List.filter p l').
Proof.
  induction 1; simpl; try congruence.
  - destruct (p x); simpl; congruence.
  - destruct (p x), (p y); reflexivity.
Qed.

Lemma filter_comm {A} (p q : A -> bool) (l : list A) :
  List.filter p (List.filter q l) = List.filter q (List.filter p l).
Proof.
  induction l as [|a l IH]; simpl; [reflexivity|].
  destruct (p a) eqn:Ep, (q a) eqn:Eq; simpl; rewrite ?Ep, ?Eq, IH; reflexivity.
Qed.

Lemma filter_notAmong_self (fs gs : list string) :
  (forall n, In n gs -> In n fs) -> List.filter (notAmong fs) gs = [].
Proof.
  induction gs as [|g gs IH]; intros Hsub; simpl; [reflexivity|].
  assert (Hg : notAmong fs g = false).
  { unfold notAmong. apply negb_false_iff, List.existsb_exists.
    exists g. split; [apply Hsub; now left | apply String.eqb_refl]. }
  rewrite Hg. apply IH. intros n Hn. apply Hsub. now right.
Qed.

Lemma map_fst_sortedLogFiles nowMs s :
  Permutation (map fst (sortedLogFiles nowMs s))
    (List.filter isLogFileName (map fst (logDir s))).
Proof.
  unfold sortedLogFiles. rewrite sortBy_perm, map_map. simpl.
  now rewrite map_id.
Qed.

(** After the cleanup, with every [unlink] succeeding, at most
    [maxLogFiles] log files are left. *)
Lemma logFileCount_cleanupOldLogFiles nowMs s :
  (forall f, unlinkFails f = false) ->
  logFileCount (cleanupOldLogFiles nowMs s) <= maxLogFiles s.
Proof.
  intros Hok. unfold cleanupOldLogFiles.
  pose proof (map_fst_sortedLogFiles nowMs s) as Hperm.
  destruct (Nat.ltb_spec (maxLogFiles s) (length (sortedLogFiles nowMs s)))
    as [Hlt|Hge].
  - unfold logFileCount. simpl.
    rewrite map_fst_unlink_all by assumption.
    rewrite filter_comm.
    rewrite (filter_length_perm _ _ _ (Permutation_sym Hperm)).
    rewrite <- (List.firstn_skipn (maxLogFiles s) (sortedLogFiles nowMs s)) at 2.
    rewrite List.map_app, List.filter_app, length_app.
    rewrite (filter_notAmong_self _ _ (fun n Hn => Hn)). simpl.
    rewrite Nat.add_0_r.
    etransitivity; [apply List.filter_length_le|].
    rewrite length_map. apply List.firstn_le_length.
  - unfold logFileCount.
    rewrite <- (Permutation_length Hperm), length_map. exact Hge.
Qed.

Lemma logFileCount_rotateLogFile isoNow ivHex nowMs s :
  (forall f, unlinkFails f = false) ->
  logFileCount (rotateLogFile isoNow ivHex nowMs s) <= maxLogFiles s.
Proof.
  intros Hok. unfold rotateLogFile.
  exact (logFileCount_cleanupOldLogFiles nowMs (createNewLogFile isoNow ivHex s) Hok).
Qed.

(** C10 (amended). Appending never rotates: [writeLogEntry] keeps the
    active file and appends the encrypted line to it, whatever its size.
    Rotation is the work of the periodic check: when it finds the active
    file larger than [maxLogSize] it switches to a new file, and leaves the
    logger alone otherwise.  After the cleanup of a rotation, with every
    deletion succeeding, at most [maxLogFiles] log files remain. *)
Theorem rotation_by_periodic_check_and_bounded_retention :
  forall (s : SecurityLogger) (isoNow ivHex : string) (nowMs : Z)
         (logEntry : LogEntry),
    currentLogFile (writeLogEntry ivHex logEntry s) = currentLogFile s /\
    (forall f content,
        isInitialized s = true -> currentLogFile s = Some f ->
        lookupFile f (logDir s) = Some content ->
        lookupFile f (logDir (writeLogEntry ivHex logEntry s))
          = Some (content +:+ (encryptLogEntry ivHex logEntry +:+ newline))) /\
    (forall f content,
        currentLogFile s = Some f -> lookupFile f (logDir s) = Some content ->
        (maxLogSize s < String.length content ->
           checkLogRotation isoNow ivHex nowMs s = rotateLogFile isoNow ivHex nowMs s /\
           currentLogFile (checkLogRotation isoNow ivHex nowMs s)
             = Some (logFileNameAt isoNow)) /\
        (String.length content <= maxLogSize s ->
           checkLogRotation isoNow ivHex nowMs s = s)) /\
    ((forall f, unlinkFails f = false) ->
        logFileCount (cleanupOldLogFiles nowMs s) <= maxLogFiles s /\
        logFileCount (rotateLogFile isoNow ivHex nowMs s) <= maxLogFiles s).
Proof.
  intros s isoNow ivHex nowMs logEntry.
  split; [apply currentLogFile_writeLogEntry|]. split; [|split].
  - intros f content Hinit Hcur Hfile. unfold writeLogEntry.
    rewrite Hinit, Hcur. simpl. now apply lookupFile_appendFile.
  - intros f content Hcur Hfile. unfold checkLogRotation.
    rewrite Hcur, Hfile. split.
    + intros Hbig.
      destruct (Nat.ltb_spec (maxLogSize s) (String.length content)); [|lia].
      split; [reflexivity|].
      unfold rotateLogFile. now rewrite currentLogFile_cleanupOldLogFiles.
    + intros Hsmall.
      destruct (Nat.ltb_spec (maxLogSize s) (String.length content)); [lia|].
      reflexivity.
  - intros Hok. split.
    + now apply logFileCount_cleanupOldLogFiles.
    + now apply logFileCount_rotateLogFile.
Qed.

End WithRuntime.

(** ** Concrete runs *)

Definition entry (n : string) : LogEntry :=
  {| type := "action"; timestamp := n; level := "INFO";
     payload := "LOCKDOWN_ACTIVATED" |}.

Definition firstLogFile : string := "security_log_2024-01-01T00-00-00-000Z.enc".

(** A logger with a ceiling of 40 bytes whose active file holds 8. *)
Definition smallLogger : SecurityLogger :=
  {| logDir := [(firstLogFile, "00:aabb" +:+ newline)];
     maxLogSize := 40; maxLogFiles := 10;
     currentLogFile := Some firstLogFile; isInitialized := true |}.

Definition hexOfEntry (e : LogEntry) : string :=
  "5f2c9a7e0d4b1c3e5f2c9a7e0d4b1c3e".

Definition sizeOfActiveFile (s : SecurityLogger) : option nat :=
  match currentLogFile s with
  | Some f => option_map String.length (lookupFile f (logDir s))
  | None => None
  end.

(** C10 as the specification states it fails: the first append takes the
    active file over the ceiling, and the next append still goes to the
    same file; no new file exists. *)
Lemma append_after_ceiling_does_not_rotate :
  let s1 := writeLogEntry hexOfEntry "00" (entry "t1") smallLogger in
  let s2 := writeLogEntry hexOfEntry "01" (entry "t2") s1 in
  sizeOfActiveFile s1 = Some 44 /\ maxLogSize s1 = 40 /\
  ~ (currentLogFile s2 <> currentLogFile s1) /\
  map fst (logDir s2) = [firstLogFile] /\
  sizeOfActiveFile s2 = Some 80.
Proof.
  cbv zeta. split; [vm_compute; reflexivity|]. split; [reflexivity|].
  split; [intros H; apply H; reflexivity|].
  split; vm_compute; reflexivity.
Qed.

Lemma retention_witness :
  (forall f, (fun _ : string => false) f = false) /\
  logFileCount
    (rotateLogFile hexOfEntry (fun _ => None) (fun _ => false)
       "2024-01-02T00:00:00.000Z" "02" 0 smallLogger) <= maxLogFiles smallLogger.
Proof.
  assert (H : forall f, (fun _ : string => false) f = false) by reflexivity.
  split; [exact H|].
  exact (proj2 (proj2 (proj2 (proj2
           (rotation_by_periodic_check_and_bounded_retention
              hexOfEntry (fun _ => None) (fun _ => false)
              smallLogger "2024-01-02T00:00:00.000Z" "02" 0 (entry "t1")))) H)).
Defined.

End Logger.

(* ===================================================================== *)
(** * Threat monitor: history window, process scan, entropy counter       *)
(* ===================================================================== *)

Module ThreatScan.

Import ThreatMonitor.

(** [getRecentThreats()]. *)
Definition getRecentThreats (m : Monitor) : list Threat :=
  firstn 20 (recentThreats m).

(** Reports made one after the other, the head of the list first. *)
Definition reportAll (ts : list Threat) (m : Monitor) : Monitor :=
  fold_left (fun m t => reportThreat t m) ts m.

(** [toLowerCase] on the ASCII letters. *)
Definition lowerAscii (c : ascii) : ascii :=
  let n := nat_of_ascii c in
  if (65 <=? n) && (n <=? 90) then ascii_of_nat (n + 32) else c.

Fixpoint toLowerCase (s : string) : string :=
  match s with
  | EmptyString => EmptyString
  | String c s' => String (lowerAscii c) (toLowerCase s')
  end.

Record Process := mkProcess { name : string; pid : Z }.

Definition suspiciousProcessNames : list string :=
  [ "windbg.exe"; "ida.exe"; "ida64.exe"; "ollydbg.exe"; "x64dbg.exe";
    "x32dbg.exe"; "ghidra.exe"; "radare2.exe"; "procmon.exe"; "procexp.exe";
    "processhacker.exe"; "cheatengine.exe"; "artmoney.exe"; "wireshark.exe";
    "fiddler.exe"; "burpsuite.exe"; "metasploit.exe"; "nmap.exe";
    "wireshark.exe"; "tcpdump.exe"; "netcat.exe"; "nc.exe" ].

Definition excludedProcessNames : list string :=
  [ "electron.exe"; "node.exe"; "defender detective"; "black ice protocol";
    "defender-detective"; "black-ice-protocol"; "defender_detective" ].

(** The monitor with its set of suspicious pids (a JS [Set], in insertion
    order). *)
Record Scan := mkScan {
  monitor : Monitor;
  suspiciousProcesses : list Z
}.

Definition pidSetAdd (p : Z) (s : list Z) : list Z :=
  if existsb (Z.eqb p) s then s else s ++ [p].

(** The inner loop over [excludedProcessNames]. *)
Definition isExcluded (processName : string) : bool :=
  existsb (fun excluded => Panic.includes processName (toLowerCase excluded))
    excludedProcessNames.

(** The inner loop over [suspiciousProcessNames]: the first pattern the
    name includes. *)
Definition firstSuspicious (processName : string) : option string :=
  List.find (fun suspicious => Panic.includes processName suspicious)
    suspiciousProcessNames.

Definition suspiciousProcessThreat (now : Z) (p : Process) : Threat :=
  {| type := "SUSPICIOUS_PROCESS"; severity := "HIGH";
     description := "Suspicious process detected: " +:+ name p;
     timestamp := now |}.

(** One turn of the loop of [checkSuspiciousProcesses]. *)
Definition scanProcess (now : Z) (st : Scan) (p : Process) : Scan :=
  let processName := toLowerCase (name p) in
  if isExcluded processName then st
  else match firstSuspicious processName with
       | Some suspicious =>
           {| monitor := reportThreat (suspiciousProcessThreat now p) (monitor st);
              suspiciousProcesses := pidSetAdd (pid p) (suspiciousProcesses st) |}
       | None => st
       end.

(** [checkSuspiciousProcesses()]; [None] is a failing [getRunningProcesses],
    which the method catches. *)
Definition checkSuspiciousProcesses (now : Z) (processes : option (list Process))
  (st : Scan) : Scan :=
  match processes with
  | Some ps => fold_left (scanProcess now) ps st
  | None => st
  end.

(** Whether the scan reports a process. *)
Definition flagged (p : Process) : bool :=
  let processName := toLowerCase (name p) in
  negb (isExcluded processName) &&
  match firstSuspicious processName with Some _ => true | None => false end.

(** The entropy check.  [spike] is the outcome of the floating-point test
    [Math.abs(currentEntropy - this.entropyBaseline) > 0.5]; the counter
    [entropySpikes] is an integer. *)
Record Entropy := mkEntropy {
  entropyMonitor : Monitor;
  entropySpikes : Z
}.

Definition entropyThreat (now : Z) : Threat :=
  {| type := "ENTROPY_SPIKE"; severity := "MEDIUM";
     description := "Entropy spike detected - possible scanning activity";
     timestamp := now |}.

(** [checkEntropySpikes()]. *)
Definition checkEntropySpikes (now : Z) (st : Entropy) (spike : bool) : Entropy :=
  if spike then
    let n := (entropySpikes st + 1)%Z in
    if (3 <? n)%Z then
      {| entropyMonitor := reportThreat (entropyThreat now) (entropyMonitor st);
         entropySpikes := 0 |}
    else {| entropyMonitor := entropyMonitor st; entropySpikes := n |}
  else
    {| entropyMonitor := entropyMonitor st;
       entropySpikes := Z.max 0 (entropySpikes st - 1) |}.

Definition checkEntropyAll (now : Z) (spikes : list bool) (st : Entropy) : Entropy :=
  fold_left (checkEntropySpikes now) spikes st.

(** The number of threat reports a monitor has emitted. *)
Definition reportCount (m : Monitor) : nat :=
  length (List.filter
            (fun e => match e with threat_detected _ => true | _ => false end)
            (emitted m)).

(** ** The history window *)

Lemma recentThreats_reportThreat t m :
  recentThreats (reportThreat t m) = firstn 100 (t :: recentThreats m).
Proof.
  unfold reportThreat. cbn [updateSecurityLevel emit recentThreats].
  destruct (Nat.ltb_spec 100 (length (t :: recentThreats m))); [reflexivity|].
  symmetry. apply firstn_all2. assumption.
Qed.

Lemma firstn_app_firstn {A} n (a b : list A) :
  firstn n (a ++ firstn n b) = firstn n (a ++ b).
Proof.
  rewrite !List.firstn_app, List.firstn_firstn. f_equal. f_equal. lia.
Qed.

Lemma recentThreats_reportAll ts : forall m,
  length (recentThreats m) <= 100 ->
  recentThreats (reportAll ts m) = firstn 100 (rev ts ++ recentThreats m).
Proof.
  induction ts as [|t ts IH]; intros m Hm.
  - simpl. symmetry. now apply firstn_all2.
  - change (reportAll (t :: ts) m) with (reportAll ts (reportThreat t m)).
    rewrite IH.
    + rewrite recentThreats_reportThreat, firstn_app_firstn. simpl.
      now rewrite <- app_assoc.
    + rewrite recentThreats_reportThreat. apply List.firstn_le_length.
Qed.

Lemma newLevel_red recent :
  Exists (fun t => severity t = "HIGH") recent -> newLevel recent = RED.
Proof.
  intros H. unfold newLevel.
  assert (Hpos : 0 < length (List.filter (hasSeverity "HIGH") recent)).
  { apply filter_length_pos. apply List.Exists_exists in H as [t [Hin Ht]].
    apply List.Exists_exists. exists t. split; [assumption|].
    now apply String.eqb_eq. }
  destruct (Nat.ltb_spec 0 (length (List.filter (hasSeverity "HIGH") recent)));
    [reflexivity | lia].
Qed.

Lemma newLevel_not_green recent : 5 < length recent -> newLevel recent <> GREEN.
Proof.
  intros H. unfold newLevel.
  destruct (0 <? length (List.filter (hasSeverity "HIGH") recent)); [discriminate|].
  destruct (Nat.ltb_spec 5 (length recent)); [|lia].
  rewrite orb_true_r. discriminate.
Qed.

Lemma filter_high_none (l : list Threat) :
  Forall (fun t => severity t <> "HIGH") l ->
  List.filter (hasSeverity "HIGH") l = [].
Proof.
  induction 1 as [|x l Hx _ IH]; simpl; [reflexivity|].
  unfold hasSeverity at 1.
  destruct (String.eqb_spec (severity x) "HIGH"); [contradiction | exact IH].
Qed.

Lemma reportCount_reportThreat t m :
  reportCount (reportThreat t m) = S (reportCount m).
Proof.
  unfold reportCount, reportThreat, updateSecurityLevel, emit. simpl.
  rewrite !List.filter_app, !length_app. simpl. lia.
Qed.

(** X1. After a report the history is the new threat followed by the
    previous history, cut to one hundred entries: the oldest entry leaves
    when the window is full, and [getRecentThreats] starts with the threat
    just reported. *)
Theorem history_window_after_report :
  forall (t : Threat) (m : Monitor),
    recentThreats (reportThreat t m) = firstn 100 (t :: recentThreats m) /\
    length (recentThreats (reportThreat t m)) <= 100 /\
    (length (recentThreats m) <= 100 ->
       recentThreats (reportThreat t m) = t :: firstn 99 (recentThreats m)) /\
    getRecentThreats (reportThreat t m) = t :: firstn 19 (recentThreats m) /\
    reportCount (reportThreat t m) = S (reportCount m).
Proof.
  intros t m. rewrite recentThreats_reportThreat.
  split; [reflexivity|]. split; [apply List.firstn_le_length|].
  split; [reflexivity|]. split.
  - unfold getRecentThreats. rewrite recentThreats_reportThreat.
    rewrite List.firstn_firstn. reflexivity.
  - apply reportCount_reportThreat.
Qed.

Lemma history_window_witness :
  length (recentThreats initial) <= 100 /\
  recentThreats (reportThreat (high 1) initial)
    = high 1 :: firstn 99 (recentThreats initial).
Proof.
  assert (H : length (recentThreats initial) <= 100) by (simpl; lia).
  split; [exact H|].
  exact (proj1 (proj2 (proj2 (history_window_after_report (high 1) initial))) H).
Defined.

(** X2. A HIGH report makes the level RED at once, and the level stays RED
    through the next ninety-nine reports, whatever they are. *)
Theorem red_lasts_ninety_nine_reports :
  forall (t : Threat) (ts : list Threat) (m : Monitor),
    severity t = "HIGH" ->
    length (recentThreats m) <= 100 ->
    length ts <= 99 ->
    newLevel (recentThreats (reportAll ts (reportThreat t m))) = RED /\
    mainSecurityLevel (reportThreat t m) = RED.
Proof.
  intros t ts m Hhigh Hm Hts. split.
  - rewrite recentThreats_reportAll
      by (rewrite recentThreats_reportThreat; apply List.firstn_le_length).
    rewrite recentThreats_reportThreat, firstn_app_firstn.
    apply newLevel_red.
    rewrite List.firstn_app.
    apply List.Exists_app. right.
    rewrite length_rev.
    destruct (100 - length ts) as [|k] eqn:E; [lia|]. simpl.
    now constructor.
  - rewrite mainSecurityLevel_reportThreat, recentThreats_reportThreat.
    apply newLevel_red. simpl. now constructor.
Qed.

Lemma red_lasts_witness :
  severity (high 1) = "HIGH" /\
  length (recentThreats initial) <= 100 /\
  length [medium 2; medium 3] <= 99 /\
  newLevel (recentThreats
              (reportAll [medium 2; medium 3] (reportThreat (high 1) initial)))
    = RED.
Proof.
  assert (H1 : severity (high 1) = "HIGH") by reflexivity.
  assert (H2 : length (recentThreats initial) <= 100) by (simpl; lia).
  assert (H3 : length [medium 2; medium 3] <= 99) by (simpl; lia).
  split; [exact H1|]. split; [exact H2|]. split; [exact H3|].
  exact (proj1 (red_lasts_ninety_nine_reports (high 1) [medium 2; medium 3]
                  initial H1 H2 H3)).
Defined.

(** X3. The level decays without any new signal of its own: one hundred
    reports none of which is HIGH push every earlier event, HIGH ones
    included, out of the window, and the level is then YELLOW. *)
Theorem red_decays_to_yellow :
  forall (ts : list Threat) (m : Monitor),
    length (recentThreats m) <= 100 ->
    100 <= length ts ->
    Forall (fun t => severity t <> "HIGH") ts ->
    newLevel (recentThreats (reportAll ts m)) = YELLOW.
Proof.
  intros ts m Hm Hts Hnone.
  rewrite recentThreats_reportAll by assumption.
  rewrite List.firstn_app, length_rev.
  replace (100 - length ts) with 0 by lia. simpl. rewrite app_nil_r.
  assert (Hlen : length (firstn 100 (rev ts)) = 100).
  { rewrite List.length_firstn, length_rev. lia. }
  assert (Hno : List.filter (hasSeverity "HIGH") (firstn 100 (rev ts)) = []).
  { apply List.Forall_rev in Hnone.
    apply (Forall_take _ 100) in Hnone.
    now apply filter_high_none. }
  unfold newLevel. rewrite Hno, Hlen. simpl.
  now rewrite orb_true_r.
Qed.

Lemma red_decays_witness :
  length (recentThreats (reportThreat (high 0) initial)) <= 100 /\
  100 <= length (repeat (medium 1) 100) /\
  Forall (fun t => severity t <> "HIGH") (repeat (medium 1) 100) /\
  newLevel (recentThreats
              (reportAll (repeat (medium 1) 100) (reportThreat (high 0) initial)))
    = YELLOW.
Proof.
  assert (H1 : length (recentThreats (reportThreat (high 0) initial)) <= 100)
    by (vm_compute; lia).
  assert (H2 : 100 <= length (repeat (medium 1) 100))
    by (rewrite repeat_length; lia).
  assert (H3 : Forall (fun t => severity t <> "HIGH") (repeat (medium 1) 100)).
  { apply List.Forall_forall. intros x Hx. apply repeat_spec in Hx. subst x.
    discriminate. }
  split; [exact H1|]. split; [exact H2|]. split; [exact H3|].
  exact (red_decays_to_yellow _ _ H1 H2 H3).
Defined.

(** X4. The history never shrinks, so once it holds six events the level
    is never GREEN again: the monitor has no way back to GREEN. *)
Theorem green_never_returns :
  forall (ts : list Threat) (m : Monitor),
    length (recentThreats m) <= 100 ->
    5 < length (recentThreats m) ->
    length (recentThreats m) <= length (recentThreats (reportAll ts m)) /\
    newLevel (recentThreats (reportAll ts m)) <> GREEN.
Proof.
  intros ts m Hm Hsix.
  assert (Hlen : length (recentThreats m)
                 <= length (recentThreats (reportAll ts m))).
  { rewrite recentThreats_reportAll by assumption.
    rewrite List.length_firstn, length_app, length_rev. lia. }
  split; [exact Hlen|]. apply newLevel_not_green. lia.
Qed.

Lemma green_never_returns_witness :
  let m := reportAll (repeat (medium 1) 6) initial in
  length (recentThreats m) <= 100 /\ 5 < length (recentThreats m) /\
  newLevel (recentThreats (reportAll [medium 2] m)) <> GREEN.
Proof.
  cbv zeta.
  assert (H1 : length (recentThreats (reportAll (repeat (medium 1) 6) initial))
               <= 100) by (vm_compute; lia).
  assert (H2 : 5 < length (recentThreats
                             (reportAll (repeat (medium 1) 6) initial)))
    by (vm_compute; lia).
  split; [exact H1|]. split; [exact H2|].
  exact (proj2 (green_never_returns [medium 2] _ H1 H2)).
Defined.
(** ** The process scan *)

Lemma scanProcess_flagged now st p :
  flagged p = true ->
  scanProcess now st p
    = {| monitor := reportThreat (suspiciousProcessThreat now p) (monitor st);
         suspiciousProcesses := pidSetAdd (pid p) (suspiciousProcesses st) |}.
Proof.
  unfold flagged, scanProcess.
  destruct (isExcluded (toLowerCase (name p))); simpl; [discriminate|].
  now destruct (firstSuspicious (toLowerCase (name p))).
Qed.

Lemma scanProcess_not_flagged now st p :
  flagged p = false -> scanProcess now st p = st.
Proof.
  unfold flagged, scanProcess.
  destruct (isExcluded (toLowerCase (name p))); simpl; [reflexivity|].
  now destruct (firstSuspicious (toLowerCase (name p))).
Qed.

Lemma scan_none_flagged now ps : forall st,
  Forall (fun p => flagged p = false) ps ->
  fold_left (scanProcess now) ps st = st.
Proof.
  induction ps as [|p ps IH]; intros st Hall; simpl; [reflexivity|].
  inversion Hall as [|? ? Hp Hps]; subst.
  rewrite scanProcess_not_flagged by assumption. now apply IH.
Qed.

Lemma scan_reportCount now ps : forall st,
  reportCount (monitor (fold_left (scanProcess now) ps st))
    = reportCount (monitor st) + length (List.filter flagged ps).
Proof.
  induction ps as [|p ps IH]; intros st; simpl; [lia|].
  rewrite IH. destruct (flagged p) eqn:E.
  - rewrite scanProcess_flagged by assumption. simpl.
    rewrite reportCount_reportThreat. lia.
  - rewrite scanProcess_not_flagged by assumption. lia.
Qed.

Lemma scan_last_report now ps : forall st,
  Exists (fun p => flagged p = true) ps ->
  exists p m, In p ps /\
    monitor (fold_left (scanProcess now) ps st)
      = reportThreat (suspiciousProcessThreat now p) m.
Proof.
  induction ps as [|p ps IH]; intros st Hex; [inversion Hex|].
  simpl. destruct (existsb flagged ps) eqn:Erest.
  - apply List.existsb_exists in Erest as [q [Hq Hf]].
    destruct (IH (scanProcess now st p)) as (p' & m & Hin & Heq).
    { apply List.Exists_exists. eauto. }
    exists p', m. split; [now right | exact Heq].
  - assert (Hnone : Forall (fun q => flagged q = false) ps).
    { apply List.Forall_forall. intros q Hq.
      destruct (flagged q) eqn:Eq; [|reflexivity].
      assert (existsb flagged ps = true)
        by (apply List.existsb_exists; eauto).
      congruence. }
    rewrite scan_none_flagged by assumption.
    inversion Hex as [? ? Hp|? ? Hps]; subst.
    + exists p, (monitor st). split; [now left|].
      now rewrite scanProcess_flagged.
    + exfalso. apply List.Exists_exists in Hps as [q [Hq Hf]].
      rewrite List.Forall_forall in Hnone. specialize (Hnone q Hq). congruence.
Qed.

(** X5. A process scan reports one HIGH threat for each process whose
    lower-cased name includes a suspicious pattern and no excluded name, and
    nothing else: with no such process, or with a failing process listing,
    the monitor is left as it was; with one, the scan ends at level RED. *)
Theorem process_scan_outcome :
  forall (now : Z) (ps : list Process) (st : Scan),
    checkSuspiciousProcesses now None st = st /\
    (Forall (fun p => flagged p = false) ps ->
       checkSuspiciousProcesses now (Some ps) st = st) /\
    reportCount (monitor (checkSuspiciousProcesses now (Some ps) st))
      = reportCount (monitor st) + length (List.filter flagged ps) /\
    (Exists (fun p => flagged p = true) ps ->
       newLevel (recentThreats
                   (monitor (checkSuspiciousProcesses now (Some ps) st))) = RED).
Proof.
  intros now ps st. split; [reflexivity|]. split; [apply scan_none_flagged|].
  split; [apply scan_reportCount|].
  intros Hex. simpl.
  destruct (scan_last_report now ps st Hex) as (p & m & _ & Heq).
  rewrite Heq, recentThreats_reportThreat. apply newLevel_red.
  simpl. now constructor.
Qed.

Lemma process_scan_witness :
  Exists (fun p => flagged p = true)
    [ {| name := "node.exe"; pid := 10 |}; {| name := "IDA64.exe"; pid := 11 |} ] /\
  newLevel (recentThreats
              (monitor (checkSuspiciousProcesses 0
                 (Some [ {| name := "node.exe"; pid := 10 |};
                         {| name := "IDA64.exe"; pid := 11 |} ])
                 {| monitor := initial; suspiciousProcesses := [] |}))) = RED.
Proof.
  assert (H : Exists (fun p => flagged p = true)
                [ {| name := "node.exe"; pid := 10 |};
                  {| name := "IDA64.exe"; pid := 11 |} ])
    by (right; left; vm_compute; reflexivity).
  split; [exact H|].
  exact (proj2 (proj2 (proj2 (process_scan_outcome 0 _
           {| monitor := initial; suspiciousProcesses := [] |}))) H).
Defined.

(** ** The entropy counter *)

Lemma checkEntropySpikes_step now st spike :
  (0 <= entropySpikes st <= 3)%Z ->
  let st' := checkEntropySpikes now st spike in
  (0 <= entropySpikes st' <= 3)%Z /\
  (4 * Z.of_nat (reportCount (entropyMonitor st')) + entropySpikes st'
   <= 4 * Z.of_nat (reportCount (entropyMonitor st)) + entropySpikes st
      + (if spike then 1 else 0))%Z.
Proof.
  intros Hrange. unfold checkEntropySpikes. destruct spike; cbv zeta.
  - destruct (Z.ltb_spec 3 (entropySpikes st + 1)); simpl.
    + pose proof (reportCount_reportThreat (entropyThreat now) (entropyMonitor st)) as Hc.
      rewrite Hc. lia.
    + lia.
  - simpl. lia.
Qed.

Lemma checkEntropyAll_bound now spikes : forall st,
  (0 <= entropySpikes st <= 3)%Z ->
  let st' := checkEntropyAll now spikes st in
  (0 <= entropySpikes st' <= 3)%Z /\
  (4 * Z.of_nat (reportCount (entropyMonitor st')) + entropySpikes st'
   <= 4 * Z.of_nat (reportCount (entropyMonitor st)) + entropySpikes st
      + Z.of_nat (length (List.filter (fun b : bool => b) spikes)))%Z.
Proof.
  induction spikes as [|b spikes IH]; intros st Hrange; cbv zeta.
  - simpl. lia.
  - change (checkEntropyAll now (b :: spikes) st)
      with (checkEntropyAll now spikes (checkEntropySpikes now st b)).
    destruct (checkEntropySpikes_step now st b Hrange) as [Hr1 Hb1].
    destruct (IH _ Hr1) as [Hr2 Hb2]. split; [exact Hr2|].
    simpl. destruct b; simpl in *; lia.
Qed.

Lemma reportCount_checkEntropyAll_mono now spikes : forall st,
  reportCount (entropyMonitor st)
    <= reportCount (entropyMonitor (checkEntropyAll now spikes st)).
Proof.
  induction spikes as [|b spikes IH]; intros st; [simpl; lia|].
  change (checkEntropyAll now (b :: spikes) st)
    with (checkEntropyAll now spikes (checkEntropySpikes now st b)).
  etransitivity; [|apply IH].
  unfold checkEntropySpikes. destruct b; simpl; [|lia].
  destruct (3 <? entropySpikes st + 1)%Z; simpl; [|lia].
  pose proof (reportCount_reportThreat (entropyThreat now) (entropyMonitor st)) as Hc.
  rewrite Hc. lia.
Qed.

(** X6. The spike counter stays between 0 and 3, and every
    [ENTROPY_SPIKE] report uses up four spike observations: over any run of
    checks, four times the number of reports is at most the counter at the
    start plus the number of spikes observed.  From a counter at zero, fewer
    than four spikes report nothing, and four spikes in a row report once
    and reset the counter. *)
Theorem entropy_report_needs_four_spikes :
  forall (now : Z) (spikes : list bool) (st : Entropy),
    (0 <= entropySpikes st <= 3)%Z ->
    let st' := checkEntropyAll now spikes st in
    let observed := length (List.filter (fun b : bool => b) spikes) in
    (0 <= entropySpikes st' <= 3)%Z /\
    (4 * Z.of_nat (reportCount (entropyMonitor st'))
     <= 4 * Z.of_nat (reportCount (entropyMonitor st)) + entropySpikes st
        + Z.of_nat observed)%Z /\
    (entropySpikes st = 0%Z -> observed < 4 ->
       reportCount (entropyMonitor st') = reportCount (entropyMonitor st)) /\
    (entropySpikes st = 0%Z ->
       let st4 := checkEntropyAll now [true; true; true; true] st in
       reportCount (entropyMonitor st4) = S (reportCount (entropyMonitor st)) /\
       entropySpikes st4 = 0%Z).
Proof.
  intros now spikes st Hrange st' observed.
  destruct (checkEntropyAll_bound now spikes st Hrange) as [Hr Hb].
  fold st' in Hr, Hb. fold observed in Hb.
  split; [exact Hr|]. split; [lia|]. split.
  - intros Hzero Hfew.
    pose proof (reportCount_checkEntropyAll_mono now spikes st) as Hmono.
    fold st' in Hmono. lia.
  - intros Hzero. destruct st as [m n]. simpl in Hzero. subst n.
    cbv zeta. unfold checkEntropyAll, checkEntropySpikes. simpl.
    pose proof (reportCount_reportThreat (entropyThreat now) (m)) as Hc.
    split; [exact Hc | reflexivity].
Qed.

Lemma entropy_report_witness :
  let st := {| entropyMonitor := initial; entropySpikes := 0 |} in
  (0 <= entropySpikes st <= 3)%Z /\
  (0 <= entropySpikes (checkEntropyAll 0 [true; false; true; true] st) <= 3)%Z.
Proof.
  cbv zeta.
  assert (H : (0 <= entropySpikes {| entropyMonitor := initial;
                                     entropySpikes := 0 |} <= 3)%Z)
    by (simpl; lia).
  split; [exact H|].
  exact (proj1 (entropy_report_needs_four_spikes 0 [true; false; true; true]
                  _ H)).
Defined.

End ThreatScan.

(* ===================================================================== *)
(** * Vault manager: file encryption, ghost content, folder persistence   *)
(* ===================================================================== *)

Module VaultFiles.

Import Vault.

(** The value of [this.createDecoyFile] on a vault manager: the class
    declares [createDecoyFiles] and the [generateDecoy...] methods, and no
    method named [createDecoyFile]. *)
Definition thisCreateDecoyFile : option (string -> State -> State) := None.

Definition withFiles (fs : gmap string (list byte)) (s : State) : State :=
  {| encryptionKey := encryptionKey s;
     protectedFolders := protectedFolders s;
     fileWatchers := fileWatchers s;
     tempDecryptedFiles := tempDecryptedFiles s;
     files := fs;
     openWatchers := openWatchers s;
     nextWatcher := nextWatcher s;
     securityLog := securityLog s;
     protectedFoldersFile := protectedFoldersFile s |}.

(** [marker[i] | 0x80]. *)
Definition setHighBit (b : byte) : byte :=
  let '(b0, (b1, (b2, (b3, (b4, (b5, (b6, _))))))) := Byte.to_bits b in
  Byte.of_bits (b0, (b1, (b2, (b3, (b4, (b5, (b6, true))))))).

Definition clearHighBit (b : byte) : byte :=
  let '(b0, (b1, (b2, (b3, (b4, (b5, (b6, _))))))) := Byte.to_bits b in
  Byte.of_bits (b0, (b1, (b2, (b3, (b4, (b5, (b6, false))))))).

Definition isAsciiByte (b : byte) : bool := (Byte.to_N b <? 128)%N.

(** [new Set(folders)]: the elements of the array, each one once, in the
    order of their first occurrence. *)
Definition setOfArray (folders : list string) : list string :=
  fold_left (fun acc x => setAdd x acc) folders [].

Section WithRuntime.

Context {cipher : AeadCipher} {nodePath : NodePath}.

(** [encryptFile(filePath)]: the state it leaves and the error its [catch]
    logged, if any.  [iv] is what [crypto.randomBytes] returns. *)
Definition encryptFile (iv : Buffer) (filePath : string) (s : State)
  : State * option JsError :=
  match files s !! filePath with
  | None => (s, Some (ENOENT filePath))
  | Some data =>
      let encrypted := encrypt (encryptionKey s) iv data in
      let encryptedPath := filePath +:+ ".encrypted" in
      let s1 := withFiles (<[encryptedPath := encrypted]> (files s)) s in
      match thisCreateDecoyFile with
      | Some createDecoyFile => (createDecoyFile filePath s1, None)
      | None => (s1, Some (TypeError "this.createDecoyFile is not a function"))
      end
  end.

(** [generateGhostContent(filePath)] at the time [now] ([Date.now()]). *)
Definition ghostMarker (now : Z) (filePath : string) : Buffer :=
  String.list_byte_of_string
    ("GHOST_MARKER:" +:+ path_basename filePath +:+ ":" +:+ pretty now).

Definition generateGhostContent (now : Z) (filePath : string) : Buffer :=
  map setHighBit (ghostMarker now filePath).

(** [loadProtectedFolders()]: a missing or unreadable
    [protected_folders.json] gives the empty set. *)
Definition loadProtectedFolders (s : State) : State :=
  match protectedFoldersFile s with
  | Some folders => withFolders (setOfArray folders) s
  | None => withFolders [] s
  end.

(** [initializeFileWatchers()]. *)
Definition initializeFileWatchers (s : State) : State :=
  fold_left (fun s folder => watchFolder folder s) (protectedFolders s) s.

(** ** [encryptFile] *)

Lemma string_length_append (a b : string) :
  String.length (a +:+ b) = String.length a + String.length b.
Proof. induction a as [|c a IH]; simpl; [reflexivity | now rewrite IH]. Qed.

Lemma encrypted_path_differs (filePath : string) :
  filePath +:+ ".encrypted" <> filePath.
Proof.
  intros H. apply (f_equal String.length) in H.
  rewrite string_length_append in H. simpl in H. lia.
Qed.

(** X7. [encryptFile] of an existing file writes the encrypted blob beside
    it and stops at the call of the missing [createDecoyFile]: the original
    file keeps its plaintext, no other file changes, and the blob decrypts
    to that plaintext.  For a missing file nothing changes. *)
Theorem encryptFile_keeps_the_plaintext :
  forall (iv : Buffer) (filePath : string) (s : State),
    length iv = 16 ->
    (forall data,
        files s !! filePath = Some data ->
        let s' := fst (encryptFile iv filePath s) in
        files s' !! filePath = Some data /\
        (exists blob,
            files s' !! (filePath +:+ ".encrypted") = Some blob /\
            decrypt (encryptionKey s') blob = inr data) /\
        (forall other, other <> filePath +:+ ".encrypted" ->
                       files s' !! other = files s !! other) /\
        snd (encryptFile iv filePath s)
          = Some (TypeError "this.createDecoyFile is not a function")) /\
    (files s !! filePath = None ->
        encryptFile iv filePath s = (s, Some (ENOENT filePath))).
Proof.
  intros iv filePath s Hiv. split.
  - intros data Hfile. unfold encryptFile. rewrite Hfile. simpl.
    split; [|split; [|split]].
    + rewrite lookup_insert_ne; [assumption | apply encrypted_path_differs].
    + eexists. split; [apply lookup_insert_eq|]. now apply decrypt_encrypt.
    + intros other Hne. now rewrite lookup_insert_ne.
    + reflexivity.
  - intros Hfile. unfold encryptFile. now rewrite Hfile.
Qed.

(** ** Ghost content *)

Lemma setHighBit_high b : isAsciiByte (setHighBit b) = false.
Proof.
  unfold setHighBit, isAsciiByte.
  destruct (Byte.to_bits b) as [b0 [b1 [b2 [b3 [b4 [b5 [b6 b7]]]]]]].
  destruct b0, b1, b2, b3, b4, b5, b6; reflexivity.
Qed.

Lemma clearHighBit_setHighBit b :
  isAsciiByte b = true -> clearHighBit (setHighBit b) = b.
Proof.
  intros Hascii. unfold clearHighBit, setHighBit.
  destruct (Byte.to_bits b) as [b0 [b1 [b2 [b3 [b4 [b5 [b6 b7]]]]]]] eqn:E.
  rewrite Byte.to_bits_of_bits.
  assert (Hb7 : b7 = false).
  { destruct b7; [|reflexivity]. exfalso.
    rewrite <- (Byte.of_bits_to_bits b), E in Hascii.
    unfold isAsciiByte in Hascii.
    destruct b0, b1, b2, b3, b4, b5, b6; discriminate. }
  subst b7. rewrite <- E. apply Byte.of_bits_to_bits.
Qed.

(** X8. The content of a ghost file is the marker with the high bit of
    every byte set: it is as long as the marker, none of its bytes is an
    ASCII character, and when the marker is ASCII, clearing the high bits
    gives the marker back. *)
Theorem ghost_content_is_the_marker_with_high_bits :
  forall (now : Z) (filePath : string),
    length (generateGhostContent now filePath)
      = length (ghostMarker now filePath) /\
    forallb (fun b => negb (isAsciiByte b)) (generateGhostContent now filePath)
      = true /\
    (forallb isAsciiByte (ghostMarker now filePath) = true ->
       map clearHighBit (generateGhostContent now filePath)
         = ghostMarker now filePath).
Proof.
  intros now filePath. unfold generateGhostContent.
  split; [apply length_map|]. split.
  - apply forallb_forall. intros b Hb. apply in_map_iff in Hb as [a [<- _]].
    now rewrite setHighBit_high.
  - intros Hascii. rewrite map_map. rewrite <- (map_id (ghostMarker now filePath)) at 2.
    apply map_ext_in. intros b Hb. apply clearHighBit_setHighBit.
    rewrite forallb_forall in Hascii. now apply Hascii.
Qed.

(** ** Persisting and reloading the folder set *)

Lemma setAdd_spec x acc :
  List.NoDup acc ->
  List.NoDup (setAdd x acc) /\ (forall y, In y (setAdd x acc) <-> y = x \/ In y acc).
Proof.
  intros Hnd. unfold setAdd. destruct (setHas x acc) eqn:E.
  - apply setHas_In in E. split; [assumption|]. intros y. split; [auto|].
    intros [->|H]; assumption.
  - apply setHas_false in E. split.
    + apply List.NoDup_app; [assumption | repeat constructor; intros [] |].
      intros a Ha [<-|[]]. contradiction.
    + intros y. rewrite List.in_app_iff. simpl. intuition.
Qed.

Lemma setOfArray_from acc folders :
  List.NoDup acc ->
  List.NoDup (fold_left (fun acc x => setAdd x acc) folders acc) /\
  (forall y, In y (fold_left (fun acc x => setAdd x acc) folders acc)
             <-> In y acc \/ In y folders).
Proof.
  revert acc. induction folders as [|x folders IH]; intros acc Hnd; simpl.
  - split; [assumption|]. intuition.
  - destruct (setAdd_spec x acc Hnd) as [Hnd' Hin'].
    destruct (IH _ Hnd') as [Hnd'' Hin'']. split; [assumption|].
    intros y. rewrite Hin'', Hin'. intuition.
Qed.


(** The watcher half of [coherent]. *)
Definition watchersAgree (s : State) : Prop :=
  (forall p w, fileWatchers s !! p = Some w <-> openWatchers s !! w = Some p) /\
  (forall w p, openWatchers s !! w = Some p -> w < nextWatcher s).

Lemma watchFolder_watchersAgree p s :
  watchersAgree s ->
  watchersAgree (watchFolder p s) /\
  protectedFolders (watchFolder p s) = protectedFolders s /\
  (forall q, is_Some (fileWatchers (watchFolder p s) !! q)
             <-> q = p \/ is_Some (fileWatchers s !! q)).
Proof.
  intros [Hopen Hfresh]. unfold watchFolder.
  destruct (fileWatchers s !! p) as [w0|] eqn:Hp.
  - split; [split; assumption|]. split; [reflexivity|].
    intros q. split; [auto|]. intros [->|H]; [eauto | assumption].
  - unfold watchersAgree. simpl. split; [split|split; [reflexivity|]].
    + intros q w. split.
      * intros Hfw. apply lookup_insert_Some in Hfw as [[<- <-]|[Hne Hfw]].
        -- apply lookup_insert_eq.
        -- apply Hopen in Hfw. rewrite lookup_insert_ne; [assumption|].
           intros <-. apply Hfresh in Hfw. lia.
      * intros How. apply lookup_insert_Some in How as [[<- <-]|[Hne How]].
        -- apply lookup_insert_eq.
        -- apply Hopen in How. rewrite lookup_insert_ne; [assumption|].
           intros <-. congruence.
    + intros w q How. apply lookup_insert_Some in How as [[<- <-]|[Hne How]];
        [lia | apply Hfresh in How; lia].
    + intros q. rewrite lookup_insert_is_Some.
      destruct (decide (p = q)) as [->|Hne]; [intuition|].
      split; [intros [?|[_ ?]]; [congruence | now right]|].
      intros [->|H]; [congruence | now right].
Qed.

Lemma watchAll_watchersAgree folders : forall s,
  watchersAgree s ->
  let s' := fold_left (fun s folder => watchFolder folder s) folders s in
  watchersAgree s' /\
  protectedFolders s' = protectedFolders s /\
  (forall q, is_Some (fileWatchers s' !! q)
             <-> In q folders \/ is_Some (fileWatchers s !! q)).
Proof.
  induction folders as [|p folders IH]; intros s Hs; cbv zeta; simpl.
  - split; [assumption|]. split; [reflexivity|]. intuition.
  - destruct (watchFolder_watchersAgree p s Hs) as (H1 & H2 & H3).
    destruct (IH _ H1) as (H4 & H5 & H6). split; [assumption|].
    split; [congruence|]. intros q. rewrite H6, H3. intuition.
Qed.

(** X9. Starting up on a persisted folder list: after [loadProtectedFolders]
    and [initializeFileWatchers] on a vault without watchers, the folder set
    holds the persisted paths, each once, and every one of them has exactly
    its own open watcher (the agreement the public operations keep).  A
    missing list gives the empty set. *)
Theorem startup_restores_folders_and_watchers :
  forall s : State,
    fileWatchers s = ∅ -> openWatchers s = ∅ ->
    let s' := initializeFileWatchers (loadProtectedFolders s) in
    coherent s' /\
    (forall p, In p (protectedFolders s')
               <-> match protectedFoldersFile s with
                   | Some folders => In p folders
                   | None => False
                   end).
Proof.
  intros s Hfw How. cbv zeta. unfold initializeFileWatchers.
  set (s0 := loadProtectedFolders s).
  assert (Hagree : watchersAgree s0).
  { unfold s0, loadProtectedFolders, watchersAgree.
    destruct (protectedFoldersFile s); simpl; rewrite Hfw, How;
      (split; [intros p w; rewrite !lookup_empty; split; discriminate
              | intros w p; rewrite lookup_empty; discriminate]). }
  assert (Hfw0 : fileWatchers s0 = ∅).
  { unfold s0, loadProtectedFolders. now destruct (protectedFoldersFile s). }
  assert (Hset : List.NoDup (protectedFolders s0) /\
                 forall p, In p (protectedFolders s0)
                           <-> match protectedFoldersFile s with
                               | Some folders => In p folders
                               | None => False
                               end).
  { unfold s0, loadProtectedFolders.
    destruct (protectedFoldersFile s) as [folders|]; simpl.
    - destruct (setOfArray_from [] folders (List.NoDup_nil _)) as [Hnd Hin].
      split; [exact Hnd|]. intros p. unfold setOfArray. rewrite Hin.
      simpl. intuition.
    - split; [constructor | intuition]. }
  destruct Hset as [Hnd Hin].
  pose proof (watchAll_watchersAgree (protectedFolders s0) s0 Hagree) as H.
  cbv zeta in H. destruct H as ([Hopen Hfresh] & Hsame & Hdom).
  split.
  - unfold coherent. rewrite Hsame. split; [exact Hnd|].
    split; [|split; assumption].
    intros p. rewrite Hdom, Hfw0, lookup_empty. split; [auto|].
    intros [H|[x Hx]]; [assumption | discriminate].
  - intros p. rewrite Hsame. apply Hin.
Qed.


(** ** Adding and removing a folder *)

Lemma setDelete_app_new x l :
  ~ In x l -> setDelete x (l ++ [x]) = l.
Proof.
  intros Hnot. unfold setDelete. rewrite List.filter_app. simpl.
  rewrite String.eqb_refl. simpl. rewrite app_nil_r.
  induction l as [|y l IH]; simpl; [reflexivity|].
  destruct (String.eqb_spec x y) as [->|Hne]; simpl.
  - exfalso. apply Hnot. now left.
  - f_equal. apply IH. intros H. apply Hnot. now right.
Qed.

(** X11. Removing a folder right after adding it undoes the addition: from
    a state in which set and watchers agree and the path is new, the folder
    set, the watcher map and the open watchers are again what they were
    (the watcher opened for the path is closed), and the persisted list
    follows when the write succeeds. *)
Theorem remove_undoes_add :
  forall (d1 d2 : bool) (P : string) (s : State),
    coherent s ->
    setHas (path_resolve P) (protectedFolders s) = false ->
    let s' := removeProtectedFolder d2 P (addProtectedFolder d1 P s) in
    protectedFolders s' = protectedFolders s /\
    fileWatchers s' = fileWatchers s /\
    openWatchers s' = openWatchers s /\
    (d2 = true -> protectedFoldersFile s' = Some (protectedFolders s)).
Proof.
  intros d1 d2 P s (Hnd & Hdom & Hopen & Hfresh) Hnew. cbv zeta.
  pose proof (proj1 (setHas_false _ _) Hnew) as Hnot.
  assert (Hnone : fileWatchers s !! path_resolve P = None).
  { destruct (fileWatchers s !! path_resolve P) eqn:E; [|reflexivity].
    exfalso. apply Hnot, Hdom. eauto. }
  assert (Hfreshw : openWatchers s !! nextWatcher s = None).
  { destruct (openWatchers s !! nextWatcher s) eqn:E; [|reflexivity].
    apply Hfresh in E. lia. }
  unfold addProtectedFolder. rewrite Hnew. simpl.
  unfold removeProtectedFolder.
  rewrite protectedFolders_saveProtectedFolders, protectedFolders_watchFolder.
  simpl. unfold setAdd. rewrite Hnew.
  assert (Hin : setHas (path_resolve P) (protectedFolders s ++ [path_resolve P])
                = true).
  { apply setHas_In, List.in_app_iff. right. now left. }
  rewrite Hin.
  unfold watchFolder. simpl. rewrite Hnone.
  destruct d1, d2; simpl; rewrite lookup_insert_eq; simpl;
    rewrite setDelete_app_new by assumption;
    rewrite !delete_insert_eq, !delete_id by assumption;
    (split; [reflexivity|]; split; [reflexivity|]; split; [reflexivity|]);
    intros H; try discriminate; reflexivity.
Qed.

(** ** Decoy substitution *)

(** [path.extname]. *)
Variable path_extname : string -> string.

Inductive DecoyKind :=
| DecoyJavaScript | DecoyPython | DecoyJSON | DecoyXML | DecoyText.

(** What the generator of a kind returns at the [k]-th generator call (the
    generators read the clock and [Math.random]). *)
Variable generateDecoy : DecoyKind -> nat -> string.

Definition sensitiveExtensions : list string :=
  [ ".js"; ".ts"; ".py"; ".java"; ".cpp"; ".h"; ".json"; ".xml"; ".yaml";
    ".yml"; ".env"; ".key"; ".pem" ].

(** [isSensitiveFile(filePath)]. *)
Definition isSensitiveFile (filePath : string) : bool :=
  let ext := ThreatScan.toLowerCase (path_extname filePath) in
  existsb (String.eqb ext) sensitiveExtensions.

(** The [switch] of [generateDecoyContent(filePath)]. *)
Definition decoyKind (filePath : string) : DecoyKind :=
  let ext := ThreatScan.toLowerCase (path_extname filePath) in
  if String.eqb ext ".js" || String.eqb ext ".ts" then DecoyJavaScript
  else if String.eqb ext ".py" then DecoyPython
  else if String.eqb ext ".json" then DecoyJSON
  else if String.eqb ext ".xml" then DecoyXML
  else DecoyText.

Definition decoyBytes (filePath : string) (k : nat) : Buffer :=
  String.list_byte_of_string (generateDecoy (decoyKind filePath) k).

(** [fs.stat(path)] in a world whose directories are the keys of [dirs]:
    [Some true] for a file, [Some false] for a directory, [None] when it
    throws. *)
Definition stat (dirs : gmap string (list string)) (s : State) (path : string)
  : option bool :=
  match files s !! path with
  | Some _ => Some true
  | None => match dirs !! path with Some _ => Some false | None => None end
  end.

(** The loop of [replaceWithDecoys]; the second component counts the
    generator calls.  A throwing [stat] ends the loop in the [catch]. *)
Fixpoint replaceLoop (dirs : gmap string (list string)) (folderPath : string)
  (children : list string) (st : State * nat) : State * nat :=
  match children with
  | [] => st
  | file :: rest =>
      let filePath := path_join folderPath file in
      match stat dirs (fst st) filePath with
      | None => st
      | Some isFile =>
          if isFile && isSensitiveFile filePath then
            replaceLoop dirs folderPath rest
              (withFiles (<[filePath := decoyBytes filePath (snd st)]>
                            (files (fst st))) (fst st),
               S (snd st))
          else replaceLoop dirs folderPath rest st
      end
  end.

(** [replaceWithDecoys(folderPath)]; [readdir] throws on a path that is not
    a directory. *)
Definition replaceWithDecoys (dirs : gmap string (list string))
  (folderPath : string) (st : State * nat) : State * nat :=
  match dirs !! folderPath with
  | Some children => replaceLoop dirs folderPath children st
  | None => st
  end.

Lemma stat_file dirs s path :
  stat dirs s path = Some true <-> is_Some (files s !! path).
Proof.
  unfold stat. destruct (files s !! path) eqn:E.
  - split; eauto.
  - split; [destruct (dirs !! path); discriminate | intros [x Hx]; discriminate].
Qed.

Lemma replaceLoop_spec dirs folderPath children : forall st,
  let st' := replaceLoop dirs folderPath children st in
  (forall path, is_Some (files (fst st') !! path)
                <-> is_Some (files (fst st) !! path)) /\
  (forall path, files (fst st') !! path <> files (fst st) !! path ->
     isSensitiveFile path = true /\
     exists file, In file children /\ path = path_join folderPath file) /\
  withFiles (files (fst st')) (fst st) = fst st'.
Proof.
  induction children as [|file rest IH]; intros st; cbv zeta; simpl.
  - split; [reflexivity|]. split; [congruence|]. now destruct st as [[] k].
  - destruct (stat dirs (fst st) (path_join folderPath file)) as [isFile|] eqn:Es.
    2:{ split; [reflexivity|]. split; [congruence|]. now destruct st as [[] k]. }
    destruct (isFile && isSensitiveFile (path_join folderPath file)) eqn:Ec.
    + apply andb_true_iff in Ec as [-> Hsens].
      apply stat_file in Es.
      specialize (IH (withFiles (<[path_join folderPath file :=
                                    decoyBytes (path_join folderPath file) (snd st)]>
                                   (files (fst st))) (fst st), S (snd st))).
      cbv zeta in IH. destruct IH as (Hdom & Hchg & Hrest).
      set (st' := replaceLoop _ _ _ _) in *. simpl in Hdom, Hchg, Hrest.
      split; [|split].
      * intros path. rewrite Hdom, lookup_insert_is_Some.
        destruct (decide (path_join folderPath file = path)) as [<-|Hne];
          intuition.
      * intros path Hne.
        destruct (decide (path = path_join folderPath file)) as [->|Hp].
        -- split; [assumption|]. exists file. split; [now left | reflexivity].
        -- assert (Hne' : files (fst st') !! path
                          <> <[path_join folderPath file :=
                                 decoyBytes (path_join folderPath file) (snd st)]>
                               (files (fst st)) !! path).
           { rewrite lookup_insert_ne by congruence. exact Hne. }
           destruct (Hchg path Hne') as [Hs [f [Hin Hf]]].
           split; [assumption|]. exists f. split; [now right | assumption].
      * rewrite <- Hrest. reflexivity.
    + specialize (IH st). cbv zeta in IH. destruct IH as (Hdom & Hchg & Hrest).
      split; [assumption|]. split; [|assumption].
      intros path Hne. destruct (Hchg path Hne) as [Hs [f [Hin Hf]]].
      split; [assumption|]. exists f. split; [now right | assumption].
Qed.

Lemma replaceLoop_keeps_decoys dirs folderPath children : forall st path,
  (exists k, files (fst st) !! path = Some (decoyBytes path k)) ->
  exists k, files (fst (replaceLoop dirs folderPath children st)) !! path
            = Some (decoyBytes path k).
Proof.
  induction children as [|file rest IH]; intros st path Hdecoy; simpl;
    [assumption|].
  destruct (stat dirs (fst st) (path_join folderPath file)) as [isFile|];
    [|assumption].
  destruct (isFile && isSensitiveFile (path_join folderPath file));
    [|now apply IH].
  apply IH. simpl.
  destruct (decide (path_join folderPath file = path)) as [<-|Hne].
  - eexists. apply lookup_insert_eq.
  - now rewrite lookup_insert_ne.
Qed.

Lemma replaceLoop_all dirs folderPath children : forall st,
  (forall file, In file children ->
                stat dirs (fst st) (path_join folderPath file) <> None) ->
  forall file, In file children ->
    is_Some (files (fst st) !! path_join folderPath file) ->
    isSensitiveFile (path_join folderPath file) = true ->
    exists k, files (fst (replaceLoop dirs folderPath children st))
                !! path_join folderPath file
              = Some (decoyBytes (path_join folderPath file) k).
Proof.
  induction children as [|c rest IH]; intros st Hstat file Hin Hfile Hsens;
    [destruct Hin|].
  simpl.
  destruct (stat dirs (fst st) (path_join folderPath c)) as [isFile|] eqn:Es;
    [|exfalso; apply (Hstat c); [now left | assumption]].
  assert (Hkeep : forall st1 : State * nat,
             (forall p, is_Some (files (fst st1) !! p)
                        <-> is_Some (files (fst st) !! p)) ->
             forall f, In f rest ->
               stat dirs (fst st1) (path_join folderPath f) <> None).
  { intros st1 Hdom f Hf. specialize (Hstat f (or_intror Hf)).
    unfold stat in *. specialize (Hdom (path_join folderPath f)).
    destruct (files (fst st) !! path_join folderPath f) eqn:E0.
    - destruct Hdom as [_ Hd]. destruct Hd as [x Hx]; [eauto|].
      rewrite Hx. discriminate.
    - destruct (files (fst st1) !! path_join folderPath f) eqn:E1;
        [discriminate | assumption]. }
  destruct (isFile && isSensitiveFile (path_join folderPath c)) eqn:Ec.
  - apply andb_true_iff in Ec as [-> Hsc]. apply stat_file in Es.
    set (st1 := (withFiles _ (fst st), S (snd st))).
    assert (Hdom1 : forall p, is_Some (files (fst st1) !! p)
                              <-> is_Some (files (fst st) !! p)).
    { intros p. unfold st1. simpl. rewrite lookup_insert_is_Some.
      destruct (decide (path_join folderPath c = p)) as [<-|Hne]; intuition. }
    destruct (decide (path_join folderPath c = path_join folderPath file))
      as [Heq|Hne].
    + apply replaceLoop_keeps_decoys. unfold st1. simpl. rewrite <- Heq.
      eexists. apply lookup_insert_eq.
    + destruct Hin as [->|Hin]; [congruence|].
      apply IH; [now apply Hkeep | assumption | now apply Hdom1 | assumption].
  - destruct Hin as [->|Hin].
    + exfalso. rewrite Hsens, andb_true_r in Ec. subst isFile.
      apply (proj2 (stat_file dirs (fst st) _)) in Hfile. congruence.
    + now apply IH; [intros f Hf; apply Hstat; right | | |].
Qed.

(** X12. [replaceWithDecoys] on a folder creates and deletes no file and
    changes nothing but file contents; a path whose content changed is a
    child of the folder with a sensitive extension, so files with other
    extensions and everything outside the folder keep their content.  When
    every child can be inspected, each sensitive file among the children
    ends up holding decoy content of the kind of its extension. *)
Theorem replaceWithDecoys_touches_sensitive_children_only :
  forall (dirs : gmap string (list string)) (folderPath : string)
         (s : State) (k : nat),
    let s' := fst (replaceWithDecoys dirs folderPath (s, k)) in
    (forall path, is_Some (files s' !! path) <-> is_Some (files s !! path)) /\
    withFiles (files s') s = s' /\
    (forall path, files s' !! path <> files s !! path ->
       isSensitiveFile path = true /\
       exists children file,
         dirs !! folderPath = Some children /\ In file children /\
         path = path_join folderPath file) /\
    (forall children,
       dirs !! folderPath = Some children ->
       (forall file, In file children ->
                     stat dirs s (path_join folderPath file) <> None) ->
       forall file, In file children ->
         is_Some (files s !! path_join folderPath file) ->
         isSensitiveFile (path_join folderPath file) = true ->
         exists j, files s' !! path_join folderPath file
                   = Some (decoyBytes (path_join folderPath file) j)).
Proof.
  intros dirs folderPath s k. cbv zeta. unfold replaceWithDecoys.
  destruct (dirs !! folderPath) as [children|] eqn:Ed.
  - pose proof (replaceLoop_spec dirs folderPath children (s, k)) as H.
    cbv zeta in H. simpl in H. destruct H as (Hdom & Hchg & Hrest).
    split; [assumption|]. split; [assumption|]. split.
    + intros path Hne. destruct (Hchg path Hne) as [Hs [f [Hin Hf]]].
      split; [assumption|]. exists children, f. auto.
    + intros children' [= <-] Hstat file Hin Hfile Hsens.
      exact (replaceLoop_all dirs folderPath children (s, k) Hstat file Hin
               Hfile Hsens).
  - simpl. split; [reflexivity|]. split; [now destruct s|].
    split; [congruence | discriminate].
Qed.

(** ** Vanishing locks and shutdown *)

(** The vault manager with its lock map and the thirty-second timers that
    are pending, each with the paths its callback closes over. *)
Record LockState := mkLockState {
  vault : State;
  vanishingLocks : gmap string string;
  lockTimers : list (string * string)
}.

(** [createVanishingLock(filePath)]; [lockData] is the JSON text of the
    lock (time, pid and a random signature). *)
Definition createVanishingLock (lockData : Buffer) (filePath : string)
  (ls : LockState) : LockState :=
  let lockPath := filePath +:+ ".lock" in
  {| vault := withFiles (<[lockPath := lockData]> (files (vault ls))) (vault ls);
     vanishingLocks := <[filePath := lockPath]> (vanishingLocks ls);
     lockTimers := lockTimers ls ++ [(filePath, lockPath)] |}.

(** The pending lock timer number [i] expires.  When [fs.unlink] throws
    (the lock file is gone) the [catch] skips the removal of the map
    entry. *)
Definition fireLockTimer (i : nat) (ls : LockState) : LockState :=
  match lockTimers ls !! i with
  | Some (filePath, lockPath) =>
      match files (vault ls) !! lockPath with
      | Some _ =>
          {| vault := withFiles (delete lockPath (files (vault ls))) (vault ls);
             vanishingLocks := delete filePath (vanishingLocks ls);
             lockTimers := delete i (lockTimers ls) |}
      | None =>
          {| vault := vault ls;
             vanishingLocks := vanishingLocks ls;
             lockTimers := delete i (lockTimers ls) |}
      end
  | None => ls
  end.

(** Delete the second components of the entries from a map: a loop of
    [unlink] or [close] calls whose failures are caught. *)
Definition deleteAll {K V A} `{Countable K} (entries : list (A * K))
  (m : gmap K V) : gmap K V :=
  foldr (fun e m => delete (snd e) m) m entries.

(** [cleanupTempFiles()]. *)
Definition cleanupTempFiles (s : State) : State :=
  {| encryptionKey := encryptionKey s;
     protectedFolders := protectedFolders s;
     fileWatchers := fileWatchers s;
     tempDecryptedFiles := ∅;
     files := deleteAll (map_to_list (tempDecryptedFiles s)) (files s);
     openWatchers := openWatchers s;
     nextWatcher := nextWatcher s;
     securityLog := securityLog s;
     protectedFoldersFile := protectedFoldersFile s |}.

(** The first loop of [shutdown()] and [this.fileWatchers.clear()]. *)
Definition closeAllWatchers (s : State) : State :=
  {| encryptionKey := encryptionKey s;
     protectedFolders := protectedFolders s;
     fileWatchers := ∅;
     tempDecryptedFiles := tempDecryptedFiles s;
     files := files s;
     openWatchers := deleteAll (map_to_list (fileWatchers s)) (openWatchers s);
     nextWatcher := nextWatcher s;
     securityLog := securityLog s;
     protectedFoldersFile := protectedFoldersFile s |}.

(** [shutdown()]. *)
Definition shutdown (ls : LockState) : LockState :=
  let s1 := closeAllWatchers (vault ls) in
  let s2 := cleanupTempFiles s1 in
  {| vault := withFiles (deleteAll (map_to_list (vanishingLocks ls)) (files s2)) s2;
     vanishingLocks := ∅;
     lockTimers := lockTimers ls |}.

Lemma lookup_deleteAll {K V A} `{Countable K} (entries : list (A * K))
  (m : gmap K V) (k : K) :
  deleteAll entries m !! k
    = if decide (k ∈ map snd entries) then None else m !! k.
Proof.
  induction entries as [|[a k'] entries IH]; simpl.
  - destruct (decide (k ∈ [])) as [Hin|]; [inversion Hin | reflexivity].
  - destruct (decide (k' = k)) as [->|Hne].
    + rewrite lookup_delete_eq.
      destruct (decide (k ∈ k :: map snd entries)) as [|Hnot]; [reflexivity|].
      exfalso. apply Hnot. constructor.
    + rewrite lookup_delete_ne by assumption. rewrite IH.
      destruct (decide (k ∈ map snd entries)) as [Hin|Hnot],
               (decide (k ∈ k' :: map snd entries)) as [Hin'|Hnot'];
        try reflexivity; exfalso.
      * apply Hnot'. now constructor.
      * apply Hnot. inversion Hin'; subst; [congruence | assumption].
Qed.

Lemma In_snd_map_to_list {K V} `{Countable K} (m : gmap K V) (v : V) :
  v ∈ map snd (map_to_list m) <-> exists k, m !! k = Some v.
Proof.
  rewrite list_elem_of_In, in_map_iff. split.
  - intros [[k v'] [Hv Hin]]. simpl in Hv. subst v'. exists k.
    apply list_elem_of_In in Hin. now apply elem_of_map_to_list in Hin.
  - intros [k Hk]. exists (k, v). split; [reflexivity|].
    apply list_elem_of_In. now apply elem_of_map_to_list.
Qed.

(** X13. A vanishing lock is a sidecar file and a map entry: creating it
    leaves the locked file itself as it was, and when its timer expires the
    lock file and the entry are gone and every other file is as before the
    lock.  If the lock file has already disappeared when the timer expires,
    the entry stays in the map. *)
Theorem vanishing_lock_life_cycle :
  forall (lockData : Buffer) (filePath : string) (ls : LockState),
    let lockPath := filePath +:+ ".lock" in
    let ls1 := createVanishingLock lockData filePath ls in
    let ls2 := fireLockTimer (length (lockTimers ls)) ls1 in
    files (vault ls1) !! lockPath = Some lockData /\
    vanishingLocks ls1 !! filePath = Some lockPath /\
    files (vault ls1) !! filePath = files (vault ls) !! filePath /\
    files (vault ls2) !! lockPath = None /\
    vanishingLocks ls2 !! filePath = None /\
    lockTimers ls2 = lockTimers ls /\
    (forall other, other <> lockPath ->
                   files (vault ls2) !! other = files (vault ls) !! other) /\
    (forall i fp lp (l : LockState),
        lockTimers l !! i = Some (fp, lp) -> files (vault l) !! lp = None ->
        vanishingLocks (fireLockTimer i l) = vanishingLocks l /\
        vault (fireLockTimer i l) = vault l).
Proof.
  intros lockData filePath ls. cbv zeta.
  assert (Hne : filePath +:+ ".lock" <> filePath).
  { intros H. apply (f_equal String.length) in H.
    rewrite string_length_append in H. simpl in H. lia. }
  assert (Hfire : lockTimers (createVanishingLock lockData filePath ls)
                    !! length (lockTimers ls)
                  = Some (filePath, filePath +:+ ".lock")).
  { simpl. now apply list_lookup_middle. }
  unfold fireLockTimer. rewrite Hfire.
  simpl. rewrite !lookup_insert_eq. simpl.
  split; [reflexivity|]. split; [reflexivity|].
  split; [now rewrite lookup_insert_ne|].
  split; [apply lookup_delete_eq|]. split; [apply lookup_delete_eq|].
  split; [rewrite delete_middle; apply app_nil_r|]. split.
  - intros other Hother.
    rewrite lookup_delete_ne, lookup_insert_ne by congruence. reflexivity.
  - intros i fp lp l Ht Hgone. rewrite Ht, Hgone. auto.
Qed.

(** X14. After [shutdown] the vault manager holds no watcher, no temporary
    decrypted file and no vanishing lock: the three maps are empty, the temp
    files and lock files they named are deleted and no other file changed,
    and every watcher that was registered is closed.  The set of protected
    folders is left as it was, and the lock timers stay pending. *)
Theorem shutdown_releases_everything :
  forall ls : LockState,
    let ls' := shutdown ls in
    fileWatchers (vault ls') = ∅ /\
    tempDecryptedFiles (vault ls') = ∅ /\
    vanishingLocks ls' = ∅ /\
    protectedFolders (vault ls') = protectedFolders (vault ls) /\
    lockTimers ls' = lockTimers ls /\
    (forall orig temp, tempDecryptedFiles (vault ls) !! orig = Some temp ->
                       files (vault ls') !! temp = None) /\
    (forall fp lp, vanishingLocks ls !! fp = Some lp ->
                   files (vault ls') !! lp = None) /\
    (forall path,
        (forall orig, tempDecryptedFiles (vault ls) !! orig <> Some path) ->
        (forall fp, vanishingLocks ls !! fp <> Some path) ->
        files (vault ls') !! path = files (vault ls) !! path) /\
    (forall p w, fileWatchers (vault ls) !! p = Some w ->
                 openWatchers (vault ls') !! w = None).
Proof.
  intros ls. cbv zeta. unfold shutdown. simpl.
  split; [reflexivity|]. split; [reflexivity|]. split; [reflexivity|].
  split; [reflexivity|]. split; [reflexivity|].
  split; [|split; [|split]].
  - intros orig temp Htemp. rewrite !lookup_deleteAll.
    destruct (decide (temp ∈ (map snd (map_to_list (vanishingLocks ls)))));
      [reflexivity|].
    destruct (decide (temp ∈ (map snd (map_to_list
                                          (tempDecryptedFiles (vault ls))))))
      as [|Hnot]; [reflexivity|].
    exfalso. apply Hnot. apply In_snd_map_to_list. eauto.
  - intros fp lp Hlock. rewrite lookup_deleteAll.
    destruct (decide (lp ∈ (map snd (map_to_list (vanishingLocks ls)))))
      as [|Hnot]; [reflexivity|].
    exfalso. apply Hnot. apply In_snd_map_to_list. eauto.
  - intros path Htemp Hlock. rewrite !lookup_deleteAll.
    destruct (decide (path ∈ (map snd (map_to_list (vanishingLocks ls)))))
      as [Hin|_].
    { apply In_snd_map_to_list in Hin as [fp Hfp]. now apply Hlock in Hfp. }
    destruct (decide (path ∈ (map snd (map_to_list
                                          (tempDecryptedFiles (vault ls))))))
      as [Hin|_]; [|reflexivity].
    apply In_snd_map_to_list in Hin as [orig Ho]. now apply Htemp in Ho.
  - intros p w Hw. rewrite lookup_deleteAll.
    destruct (decide (w ∈ (map snd (map_to_list (fileWatchers (vault ls))))))
      as [|Hnot]; [reflexivity|].
    exfalso. apply Hnot. apply In_snd_map_to_list. eauto.
Qed.

End WithRuntime.

(** ** Concrete runs *)

(** A reference [path.extname]: the part of the name from its last dot. *)
Fixpoint fromLastDot (s : string) : string :=
  match s with
  | EmptyString => EmptyString
  | String c s' =>
      let r := fromLastDot s' in
      if negb (String.eqb r "") then r
      else if Ascii.eqb c "."%char then s else EmptyString
  end.

Definition decoyText (kind : DecoyKind) (k : nat) : string :=
  match kind with
  | DecoyJavaScript => "// Decoy JavaScript file " +:+ pretty k
  | DecoyPython => "# Decoy Python file"
  | DecoyJSON => "{ fake_config " +:+ pretty k +:+ " }"
  | DecoyXML => "<configuration>" +:+ pretty k +:+ "</configuration>"
  | DecoyText => "Decoy Text File " +:+ pretty k
  end.

Definition projectVault : State :=
  {| encryptionKey := key0; protectedFolders := ["/proj"];
     fileWatchers := {[ "/proj" := 0 ]};
     tempDecryptedFiles := ∅;
     files := {[ "/proj/a.py" := String.list_byte_of_string "print(1)";
                 "/proj/readme.md" := String.list_byte_of_string "hello" ]};
     openWatchers := {[ 0 := "/proj" ]}; nextWatcher := 1; securityLog := [];
     protectedFoldersFile := Some ["/proj"] |}.

Definition projectDirs : gmap string (list string) :=
  {[ "/proj" := ["a.py"; "readme.md"] ]}.

Lemma encryptFile_witness :
  length iv0 = 16 /\
  files projectVault !! "/proj/a.py" = Some (String.list_byte_of_string "print(1)") /\
  files (fst (encryptFile iv0 "/proj/a.py" projectVault)) !! "/proj/a.py"
    = Some (String.list_byte_of_string "print(1)").
Proof.
  assert (H1 : length iv0 = 16) by reflexivity.
  assert (H2 : files projectVault !! "/proj/a.py"
               = Some (String.list_byte_of_string "print(1)"))
    by (vm_compute; reflexivity).
  split; [exact H1|]. split; [exact H2|].
  exact (proj1 (proj1 (encryptFile_keeps_the_plaintext iv0 "/proj/a.py"
                         projectVault H1) _ H2)).
Defined.

Lemma ghost_content_witness :
  forallb isAsciiByte (ghostMarker (nodePath := posixPath) 1700000000000 "/proj/a.py")
    = true /\
  map clearHighBit
    (generateGhostContent (nodePath := posixPath) 1700000000000 "/proj/a.py")
    = ghostMarker (nodePath := posixPath) 1700000000000 "/proj/a.py".
Proof.
  assert (H : forallb isAsciiByte
                (ghostMarker (nodePath := posixPath) 1700000000000 "/proj/a.py")
              = true) by (vm_compute; reflexivity).
  split; [exact H|].
  exact (proj2 (proj2 (ghost_content_is_the_marker_with_high_bits
                         (nodePath := posixPath) 1700000000000 "/proj/a.py")) H).
Defined.

Definition restartedVault : State :=
  {| encryptionKey := key0; protectedFolders := []; fileWatchers := ∅;
     tempDecryptedFiles := ∅; files := ∅; openWatchers := ∅;
     nextWatcher := 0; securityLog := [];
     protectedFoldersFile := Some ["/proj"; "/home/work"; "/proj"] |}.

Lemma startup_witness :
  fileWatchers restartedVault = ∅ /\ openWatchers restartedVault = ∅ /\
  coherent (initializeFileWatchers (loadProtectedFolders restartedVault)).
Proof.
  split; [reflexivity|]. split; [reflexivity|].
  exact (proj1 (startup_restores_folders_and_watchers restartedVault
                  eq_refl eq_refl)).
Defined.


Lemma remove_undoes_add_witness :
  coherent (initial key0) /\
  setHas "/proj" (protectedFolders (initial key0)) = false /\
  fileWatchers
    (removeProtectedFolder (nodePath := posixPath) true "/proj"
       (addProtectedFolder (nodePath := posixPath) true "/proj" (initial key0)))
    = fileWatchers (initial key0).
Proof.
  assert (H : setHas "/proj" (protectedFolders (initial key0)) = false)
    by reflexivity.
  split; [apply coherent_initial|]. split; [exact H|].
  exact (proj1 (proj2 (remove_undoes_add (nodePath := posixPath) true true
                         "/proj" (initial key0) (coherent_initial key0) H))).
Defined.

Lemma replaceWithDecoys_witness :
  projectDirs !! "/proj" = Some ["a.py"; "readme.md"] /\
  In "a.py" ["a.py"; "readme.md"] /\
  isSensitiveFile fromLastDot "/proj/a.py" = true /\
  exists j,
    files (fst (replaceWithDecoys (nodePath := posixPath) fromLastDot decoyText
                  projectDirs "/proj" (projectVault, 0))) !! "/proj/a.py"
    = Some (decoyBytes fromLastDot decoyText "/proj/a.py" j).
Proof.
  assert (H1 : projectDirs !! "/proj" = Some ["a.py"; "readme.md"])
    by (vm_compute; reflexivity).
  assert (H2 : forall file, In file ["a.py"; "readme.md"] ->
                 stat projectDirs projectVault
                   (path_join (NodePath := posixPath) "/proj" file) <> None).
  { intros file [<-|[<-|[]]]; vm_compute; discriminate. }
  assert (H3 : In "a.py" ["a.py"; "readme.md"]) by (now left).
  assert (H4 : is_Some (files projectVault
                          !! path_join (NodePath := posixPath) "/proj" "a.py"))
    by (eexists; vm_compute; reflexivity).
  assert (H5 : isSensitiveFile fromLastDot "/proj/a.py" = true)
    by (vm_compute; reflexivity).
  split; [exact H1|]. split; [exact H3|]. split; [exact H5|].
  exact (proj2 (proj2 (proj2
           (replaceWithDecoys_touches_sensitive_children_only
              (nodePath := posixPath) fromLastDot decoyText
              projectDirs "/proj" projectVault 0)))
           _ H1 H2 "a.py" H3 H4 H5).
Defined.

Definition noLocks : LockState :=
  {| vault := projectVault; vanishingLocks := ∅; lockTimers := [] |}.

Lemma vanishing_lock_witness :
  "/proj/readme.md" <> "/proj/a.py" +:+ ".lock" /\
  files (vault (fireLockTimer 0
                  (createVanishingLock [x7b; x7d] "/proj/a.py" noLocks)))
    !! "/proj/readme.md"
  = files (vault noLocks) !! "/proj/readme.md".
Proof.
  assert (H : "/proj/readme.md" <> "/proj/a.py" +:+ ".lock") by discriminate.
  split; [exact H|].
  exact (proj1 (proj2 (proj2 (proj2 (proj2 (proj2 (proj2
           (vanishing_lock_life_cycle [x7b; x7d] "/proj/a.py" noLocks)))))))
           "/proj/readme.md" H).
Defined.

Lemma shutdown_witness :
  fileWatchers (vault noLocks) !! "/proj" = Some 0 /\
  openWatchers (vault (shutdown noLocks)) !! 0 = None.
Proof.
  assert (H : fileWatchers (vault noLocks) !! "/proj" = Some 0)
    by (vm_compute; reflexivity).
  split; [exact H|].
  exact (proj2 (proj2 (proj2 (proj2 (proj2 (proj2 (proj2 (proj2
           (shutdown_releases_everything noLocks))))))))
           "/proj" 0 H).
Defined.

End VaultFiles.

(* ===================================================================== *)
(** * Panic handler: what holds over every run of commands                *)
(* ===================================================================== *)

Module PanicRuns.

Import Panic.

Definition isActivationEntry (e : Effect) : bool :=
  match e with
  | LogAction a => String.eqb a "LOCKDOWN_ACTIVATED"
  | _ => false
  end.

Definition activations (h : PanicHandler) : nat :=
  length (List.filter isActivationEntry (effects h)).

Definition deactivations (h : PanicHandler) : nat :=
  length (List.filter isDeactivationEntry (effects h)).

(** The log accounts for the lockdown state: one more activation entry
    than deactivation entries exactly while the lockdown is on, and no
    more pending timers than activations. *)
Definition accounted (h : PanicHandler) : Prop :=
  activations h = deactivations h + (if isLockedDown h then 1 else 0) /\
  length (timers h) <= activations h.

Section WithPlatform.

Variable platform : string.

Lemma accounted_perform e h :
  isActivationEntry e = false -> isDeactivationEntry e = false ->
  accounted h -> accounted (perform e h).
Proof.
  intros Ha Hd [H1 H2]. unfold accounted, activations, deactivations, perform.
  simpl. rewrite !List.filter_app. simpl. rewrite Ha, Hd, !app_nil_r.
  split; assumption.
Qed.

Lemma accounted_activateLockdown h : accounted h -> accounted (activateLockdown h).
Proof.
  intros Hacc. unfold activateLockdown.
  destruct (isLockedDown h) eqn:E; [exact Hacc|].
  destruct Hacc as [H1 H2]. rewrite E in H1.
  unfold accounted, activations, deactivations in *. simpl.
  rewrite !List.filter_app, !length_app. simpl. lia.
Qed.

Lemma accounted_deactivateLockdown h :
  accounted h -> accounted (deactivateLockdown h).
Proof.
  intros Hacc. unfold deactivateLockdown.
  destruct (isLockedDown h) eqn:E; simpl; [|exact Hacc].
  destruct Hacc as [H1 H2]. rewrite E in H1.
  unfold accounted, activations, deactivations in *. simpl.
  rewrite !List.filter_app, !length_app. simpl. lia.
Qed.

Lemma accounted_setTimers ts h :
  length ts <= length (timers h) -> accounted h -> accounted (setTimers ts h).
Proof.
  intros Hlen [H1 H2]. unfold accounted, activations, deactivations in *.
  simpl. split; [assumption | lia].
Qed.

Lemma accounted_fireTimer i h : accounted h -> accounted (fireTimer i h).
Proof.
  intros Hacc. unfold fireTimer.
  destruct (timers h !! i) as [[d []]|] eqn:Et; [|assumption]. simpl.
  apply accounted_deactivateLockdown, accounted_setTimers; [|assumption].
  rewrite length_delete by eauto. lia.
Qed.

Lemma accounted_setPanicMode b h : accounted h -> accounted (setPanicMode b h).
Proof. intros [H1 H2]. split; assumption. Qed.

Lemma accounted_processExit code h : accounted h -> accounted (processExit code h).
Proof.
  intros Hacc.
  apply (accounted_perform (ProcessExit code)) in Hacc; [|reflexivity..].
  destruct Hacc as [H1 H2]. split; assumption.
Qed.

Ltac account :=
  repeat first
    [ assumption
    | apply accounted_setPanicMode
    | apply accounted_processExit
    | apply accounted_activateLockdown
    | apply accounted_perform; [reflexivity | reflexivity |] ].

Lemma accounted_activatePanicMode trigger h :
  accounted h -> accounted (activatePanicMode platform trigger h).
Proof.
  intros Hacc. unfold activatePanicMode.
  destruct (panicMode h); [assumption|].
  unfold executeEmergencyProcedures, selfObliterate, removeRegistryEntries.
  destruct (String.eqb trigger "SELF_DESTRUCT_SEQUENCE");
    [destruct (String.eqb platform "win32")|];
    unfold deleteApplicationFiles, wipeAllData, fakeApplicationCrash,
      performLockdown, wipeSensitiveData, logAction;
    account.
Qed.

Lemma accounted_step h c : accounted h -> accounted (step platform h c).
Proof.
  intros Hacc. unfold step. destruct (exited h); [assumption|].
  destruct c as [| |data|value|trigger|i|].
  - now apply accounted_activateLockdown.
  - now apply accounted_deactivateLockdown.
  - unfold checkForPanicWords.
    destruct (firstPassphrase _ _); [now apply accounted_activatePanicMode | assumption].
  - unfold checkForPanicWords.
    destruct (firstPassphrase _ _); [now apply accounted_activatePanicMode | assumption].
  - now apply accounted_activatePanicMode.
  - now apply accounted_fireTimer.
  - unfold shutdown. destruct (isLockedDown h);
      [now apply accounted_deactivateLockdown | assumption].
Qed.

(** X15. Over every sequence of commands from the initial handler, the
    log accounts for the lockdown: the number of [LOCKDOWN_ACTIVATED]
    entries is the number of [LOCKDOWN_DEACTIVATED] entries, plus one
    exactly while the lockdown is on; and at most one timer is pending for
    each activation. *)
Theorem lockdown_log_accounts_for_state :
  forall cs : list Command,
    let h := run platform cs initial in
    activations h = deactivations h + (if isLockedDown h then 1 else 0) /\
    deactivations h <= activations h /\
    length (timers h) <= activations h.
Proof.
  intros cs. cbv zeta.
  assert (Hacc : accounted (run platform cs initial)).
  { unfold run. generalize initial,
      (conj eq_refl (Nat.le_refl 0) : accounted initial).
    induction cs as [|c cs IH]; intros h Hh; simpl; [assumption|].
    apply IH. now apply accounted_step. }
  destruct Hacc as [H1 H2]. split; [exact H1|]. split; [lia | exact H2].
Qed.

(** ** Panic mode latches *)

Lemma panicMode_activateLockdown h :
  panicMode (activateLockdown h) = panicMode h.
Proof. unfold activateLockdown. now destruct (isLockedDown h). Qed.

Lemma panicMode_deactivateLockdown h :
  panicMode (deactivateLockdown h) = panicMode h.
Proof. unfold deactivateLockdown. now destruct (isLockedDown h). Qed.

Lemma panicMode_executeEmergencyProcedures trigger h :
  panicMode (executeEmergencyProcedures platform trigger h) = panicMode h.
Proof.
  unfold executeEmergencyProcedures, selfObliterate, removeRegistryEntries.
  destruct (String.eqb trigger "SELF_DESTRUCT_SEQUENCE");
    [destruct (String.eqb platform "win32")|];
    unfold processExit, deleteApplicationFiles, wipeAllData,
      fakeApplicationCrash, logAction, perform;
    cbn [panicMode]; unfold performLockdown;
    now rewrite panicMode_activateLockdown.
Qed.

Lemma latched_step h c :
  panicMode h = true -> exited h = false ->
  panicMode (step platform h c) = true /\ exited (step platform h c) = false.
Proof.
  intros Hp He. unfold step. rewrite He.
  destruct c as [| |data|value|trigger|i|].
  - now rewrite panicMode_activateLockdown, exited_activateLockdown.
  - now rewrite panicMode_deactivateLockdown, exited_deactivateLockdown.
  - unfold checkForPanicWords. destruct (firstPassphrase _ _); [|auto].
    now rewrite activatePanicMode_when_active.
  - unfold checkForPanicWords. destruct (firstPassphrase _ _); [|auto].
    now rewrite activatePanicMode_when_active.
  - now rewrite activatePanicMode_when_active.
  - rewrite exited_fireTimer. split; [|assumption].
    unfold fireTimer. destruct (timers h !! i) as [[d []]|]; [|assumption].
    simpl. now rewrite panicMode_deactivateLockdown.
  - unfold shutdown. destruct (isLockedDown h); [|auto].
    now rewrite panicMode_deactivateLockdown, exited_deactivateLockdown.
Qed.

(** X16. Panic mode is never left, and it is entered once: from a handler
    that is in panic mode and running, no sequence of commands ends the
    process or leaves panic mode.  The destruct passphrase therefore has no
    effect once any other passphrase has triggered panic mode. *)
Theorem panic_mode_latches :
  forall (cs : list Command) (h : PanicHandler),
    panicMode h = true -> exited h = false ->
    panicMode (run platform cs h) = true /\
    exited (run platform cs h) = false /\
    effects (step platform h (CmdActivatePanicMode destructPassphrase))
      = effects h.
Proof.
  intros cs h Hp He. split; [|split].
  - revert h Hp He. induction cs as [|c cs IH]; intros h Hp He; simpl;
      [assumption|].
    destruct (latched_step h c Hp He) as [Hp' He']. now apply IH.
  - revert h Hp He. induction cs as [|c cs IH]; intros h Hp He; simpl;
      [assumption|].
    destruct (latched_step h c Hp He) as [Hp' He']. now apply IH.
  - unfold step. rewrite He. now rewrite activatePanicMode_when_active.
Qed.

(** ** Which passphrase wins *)

(** X17. [checkForPanicWords] acts on the first passphrase, in the order
    of the set, that the input includes.  On a running handler that is not
    in panic mode it ends the process exactly when that first passphrase is
    the destruct one, that is when the input includes the destruct
    passphrase and none of the three others; an input that includes one of
    the three others never ends the process.  Input from standard input is
    matched after upper-casing. *)
Theorem first_passphrase_decides :
  forall (input : string) (h : PanicHandler),
    exited h = false -> panicMode h = false ->
    (exited (checkForPanicWords platform input h) = true
     <-> includes input "BLACK_ICE_PROTOCOL" = false /\
         includes input "DEFENDER_DETECTIVE_EMERGENCY" = false /\
         includes input "PANIC_MODE_ACTIVATE" = false /\
         includes input "SELF_DESTRUCT_SEQUENCE" = true) /\
    (firstPassphrase input emergencyPassphrases <> None ->
       panicMode (checkForPanicWords platform input h) = true) /\
    step platform h (CmdStdin input)
      = checkForPanicWords platform (toUpperCase input) h.
Proof.
  intros input h He Hp.
  assert (Hexit : forall trigger,
            exited (activatePanicMode platform trigger h) = true
            <-> trigger = destructPassphrase).
  { intros trigger. unfold activatePanicMode. rewrite Hp.
    apply exited_executeEmergencyProcedures. exact He. }
  assert (Hpanic : forall trigger,
            panicMode (activatePanicMode platform trigger h) = true).
  { intros trigger. unfold activatePanicMode. rewrite Hp.
    now rewrite panicMode_executeEmergencyProcedures. }
  split; [|split].
  - unfold checkForPanicWords, emergencyPassphrases, firstPassphrase.
    destruct (includes input "BLACK_ICE_PROTOCOL").
    { rewrite Hexit. split; [discriminate | intros [H _]; discriminate]. }
    destruct (includes input "DEFENDER_DETECTIVE_EMERGENCY").
    { rewrite Hexit. split; [discriminate | intros (_ & H & _); discriminate]. }
    destruct (includes input "PANIC_MODE_ACTIVATE").
    { rewrite Hexit. split; [discriminate | intros (_ & _ & H & _); discriminate]. }
    destruct (includes input "SELF_DESTRUCT_SEQUENCE").
    { rewrite Hexit. split; [auto | reflexivity]. }
    rewrite He. split; [discriminate | intros (_ & _ & _ & H); discriminate].
  - intros Hsome. unfold checkForPanicWords.
    destruct (firstPassphrase input emergencyPassphrases); [apply Hpanic | congruence].
  - unfold step. now rewrite He.
Qed.

End WithPlatform.

Lemma panic_mode_latches_witness :
  let h := activatePanicMode "linux" "BLACK_ICE_PROTOCOL" initial in
  panicMode h = true /\ exited h = false /\
  exited (run "linux" [CmdStdin "self_destruct_sequence";
                       CmdActivatePanicMode "SELF_DESTRUCT_SEQUENCE"] h) = false.
Proof.
  cbv zeta.
  assert (H1 : panicMode (activatePanicMode "linux" "BLACK_ICE_PROTOCOL" initial)
               = true) by reflexivity.
  assert (H2 : exited (activatePanicMode "linux" "BLACK_ICE_PROTOCOL" initial)
               = false) by reflexivity.
  split; [exact H1|]. split; [exact H2|].
  exact (proj1 (proj2 (panic_mode_latches "linux" _ _ H1 H2))).
Defined.

Lemma first_passphrase_witness :
  exited initial = false /\ panicMode initial = false /\
  includes "PLEASE SELF_DESTRUCT_SEQUENCE NOW" "SELF_DESTRUCT_SEQUENCE" = true /\
  exited (checkForPanicWords "linux" "PLEASE SELF_DESTRUCT_SEQUENCE NOW" initial)
    = true.
Proof.
  assert (H1 : exited initial = false) by reflexivity.
  assert (H2 : panicMode initial = false) by reflexivity.
  assert (H3 : includes "PLEASE SELF_DESTRUCT_SEQUENCE NOW" "BLACK_ICE_PROTOCOL"
               = false /\
               includes "PLEASE SELF_DESTRUCT_SEQUENCE NOW"
                 "DEFENDER_DETECTIVE_EMERGENCY" = false /\
               includes "PLEASE SELF_DESTRUCT_SEQUENCE NOW" "PANIC_MODE_ACTIVATE"
               = false /\
               includes "PLEASE SELF_DESTRUCT_SEQUENCE NOW"
                 "SELF_DESTRUCT_SEQUENCE" = true)
    by (repeat split; vm_compute; reflexivity).
  split; [exact H1|]. split; [exact H2|]. split; [exact (proj2 (proj2 (proj2 H3)))|].
  exact (proj2 (proj1 (first_passphrase_decides "linux" _ initial H1 H2)) H3).
Defined.

End PanicRuns.

(* ===================================================================== *)
(** * Security logger: reading back, clearing, retention order            *)
(* ===================================================================== *)

Module LogStore.

Import Logger.

(** ** Strings *)

(** [s.split(c)] for a one-character separator. *)
Fixpoint splitOn (c : ascii) (s : string) : list string :=
  match s with
  | EmptyString => [EmptyString]
  | String a s' =>
      if Ascii.eqb a c then EmptyString :: splitOn c s'
      else match splitOn c s' with
           | h :: t => String a h :: t
           | [] => [String a EmptyString]
           end
  end.

Fixpoint hasChar (c : ascii) (s : string) : bool :=
  match s with
  | EmptyString => false
  | String a s' => Ascii.eqb a c || hasChar c s'
  end.

Fixpoint allChars (p : ascii -> bool) (s : string) : bool :=
  match s with
  | EmptyString => true
  | String a s' => p a && allChars p s'
  end.

(** The digits [iv.toString('hex')] and the ['hex'] output encoding
    produce. *)
Definition isHexDigit (c : ascii) : bool :=
  let n := nat_of_ascii c in
  ((48 <=? n) && (n <=? 57)) || ((97 <=? n) && (n <=? 102)).

Definition isHex (s : string) : bool := allChars isHexDigit s.

(** The white space [trim()] removes, among the ASCII characters. *)
Definition isWhiteSpace (c : ascii) : bool :=
  let n := nat_of_ascii c in
  (n =? 32) || ((9 <=? n) && (n <=? 13)).

(** [!line.trim()]. *)
Definition isBlank (line : string) : bool := allChars isWhiteSpace line.

Definition colon : ascii := ":"%char.
Definition lineFeed : ascii := ascii_of_nat 10.

(** The files a data wipe keeps: [wipeNonSecurityLogs] of the panic
    handler unlinks a file of the log directory when its name includes
    neither [security] nor [threat]. *)
Definition keptByWipe (file : string) : bool :=
  Panic.includes file "security" || Panic.includes file "threat".

Section WithRuntime.

Variable cbcHex : LogEntry -> string.

(** [crypto.createDecipher] on the hexadecimal text followed by
    [JSON.parse]; [None] when either throws. *)
Variable cbcOpenHex : string -> option LogEntry.

Variable dateParse : string -> option Z.
Variable unlinkFails : string -> bool.

(** [decryptLogEntry(encryptedData)]. *)
Definition decryptLogEntry (encryptedData : string) : option LogEntry :=
  match splitOn colon encryptedData with
  | [iv; encrypted] => cbcOpenHex encrypted
  | _ => None
  end.

(** The body of the loop of [getAllLogs] over one file: the entries of
    its non-blank lines that decrypt. *)
Definition readLogFile (content : string) : list LogEntry :=
  omap decryptLogEntry
    (List.filter (fun line => negb (isBlank line)) (splitOn lineFeed content)).

(** The loop of [clearLogs()] over the log files: it stops at the first
    [unlink] that fails, and the error is thrown on. *)
Fixpoint unlinkUntilFailure (fs : list string) (d : list (string * string))
  : list (string * string) * bool :=
  match fs with
  | [] => (d, false)
  | f :: fs' =>
      if unlinkFails f then (d, true) else unlinkUntilFailure fs' (unlink f d)
  end.

(** [clearLogs()]; [inl] carries the state left when the method throws. *)
Definition clearLogs (isoNow ivHex : string) (s : SecurityLogger)
  : SecurityLogger + SecurityLogger :=
  let logFiles := List.filter isLogFileName (map fst (logDir s)) in
  let '(d, thrown) := unlinkUntilFailure logFiles (logDir s) in
  if thrown then inl (withLogDir d s)
  else inr (createNewLogFile cbcHex isoNow ivHex (withLogDir d s)).

(** The loop of [wipeNonSecurityLogs()] of the panic handler over the log
    directory. *)
Definition wipeNonSecurityLogs (d : list (string * string))
  : list (string * string) :=
  fold_left
    (fun d file => if negb (keptByWipe file) then unlinkCaught unlinkFails d file
                   else d)
    (map fst d) d.

(** ** Lemmas on strings *)

Lemma append_assoc (a b c : string) : (a +:+ b) +:+ c = a +:+ (b +:+ c).
Proof.
  induction a as [|x a IH]; [reflexivity|].
  change (String x ((a +:+ b) +:+ c) = String x (a +:+ (b +:+ c))).
  now rewrite IH.
Qed.

Lemma hasChar_append c a b : hasChar c (a +:+ b) = hasChar c a || hasChar c b.
Proof.
  induction a as [|x a IH]; simpl; [reflexivity|].
  now rewrite IH, orb_assoc.
Qed.

Lemma splitOn_nonempty c s : splitOn c s <> [].
Proof.
  destruct s as [|a s]; simpl; [discriminate|].
  destruct (Ascii.eqb a c); [discriminate|].
  destruct (splitOn c s); discriminate.
Qed.

Lemma splitOn_append_separator c a b :
  hasChar c a = false -> splitOn c (a +:+ String c b) = a :: splitOn c b.
Proof.
  induction a as [|x a IH]; simpl; intros Hno.
  - now rewrite Ascii.eqb_refl.
  - apply orb_false_iff in Hno as [Hx Ha]. rewrite Hx, IH by assumption.
    reflexivity.
Qed.

Lemma splitOn_without_separator c a :
  hasChar c a = false -> splitOn c a = [a].
Proof.
  induction a as [|x a IH]; simpl; intros Hno; [reflexivity|].
  apply orb_false_iff in Hno as [Hx Ha]. rewrite Hx, IH by assumption.
  reflexivity.
Qed.

Lemma isHex_no_separator s :
  isHex s = true -> hasChar colon s = false /\ hasChar lineFeed s = false.
Proof.
  induction s as [|a s IH]; simpl; [auto|].
  intros H. apply andb_true_iff in H as [Ha Hs]. destruct (IH Hs) as [H1 H2].
  rewrite H1, H2, !orb_false_r. split.
  - destruct (Ascii.eqb_spec a colon); [subst; discriminate | reflexivity].
  - destruct (Ascii.eqb_spec a lineFeed); [subst; discriminate | reflexivity].
Qed.

Lemma isBlank_with_colon s : hasChar colon s = true -> isBlank s = false.
Proof.
  unfold isBlank. induction s as [|a s IH]; simpl; [discriminate|].
  intros H. destruct (Ascii.eqb_spec a colon) as [->|_]; [reflexivity|].
  simpl in H. rewrite (IH H). apply andb_false_r.
Qed.

(** An encrypted line splits at its only colon. *)
Lemma splitOn_encryptLogEntry ivHex logEntry :
  isHex ivHex = true -> isHex (cbcHex logEntry) = true ->
  splitOn colon (encryptLogEntry cbcHex ivHex logEntry)
    = [ivHex; cbcHex logEntry].
Proof.
  intros Hiv Hhex. unfold encryptLogEntry.
  change (":" +:+ cbcHex logEntry) with (String colon (cbcHex logEntry)).
  rewrite splitOn_append_separator by apply (isHex_no_separator _ Hiv).
  now rewrite splitOn_without_separator by apply (isHex_no_separator _ Hhex).
Qed.

(** X18. An entry written by [encryptLogEntry] is read back by
    [decryptLogEntry]: with hexadecimal IV text and cipher text, the line
    splits at its single colon and the cipher text is decrypted.  The empty
    line, which [encryptLogEntry] returns on failure, and every line without
    a colon are rejected. *)
Theorem log_entry_round_trip :
  forall (ivHex : string) (logEntry : LogEntry),
    isHex ivHex = true ->
    isHex (cbcHex logEntry) = true ->
    cbcOpenHex (cbcHex logEntry) = Some logEntry ->
    decryptLogEntry (encryptLogEntry cbcHex ivHex logEntry) = Some logEntry /\
    decryptLogEntry "" = None /\
    (forall line, hasChar colon line = false -> decryptLogEntry line = None).
Proof.
  intros ivHex logEntry Hiv Hhex Hopen. split; [|split].
  - unfold decryptLogEntry. now rewrite splitOn_encryptLogEntry.
  - reflexivity.
  - intros line Hno. unfold decryptLogEntry.
    now rewrite splitOn_without_separator.
Qed.

(** Two encrypted entries written without a line break between them do not
    decrypt. *)
Lemma decryptLogEntry_merged iv0 e0 iv1 e1 :
  isHex iv0 = true -> isHex iv1 = true ->
  isHex (cbcHex e0) = true -> isHex (cbcHex e1) = true ->
  decryptLogEntry (encryptLogEntry cbcHex iv0 e0 +:+ encryptLogEntry cbcHex iv1 e1)
    = None.
Proof.
  intros H0 H1 Hh0 Hh1. unfold decryptLogEntry, encryptLogEntry.
  rewrite !append_assoc.
  change (":" +:+ (cbcHex e0 +:+ (iv1 +:+ (":" +:+ cbcHex e1))))
    with (String colon (cbcHex e0 +:+ (iv1 +:+ String colon (cbcHex e1)))).
  rewrite splitOn_append_separator by apply (isHex_no_separator _ H0).
  rewrite <- append_assoc.
  rewrite splitOn_append_separator.
  2:{ rewrite hasChar_append.
      now rewrite (proj1 (isHex_no_separator _ Hh0)),
                  (proj1 (isHex_no_separator _ H1)). }
  now rewrite splitOn_without_separator by apply (isHex_no_separator _ Hh1).
Qed.

Lemma lookupFile_writeFile f data d :
  lookupFile f (writeFile f data d) = Some data.
Proof.
  induction d as [|[n c] d IH]; simpl.
  - now rewrite String.eqb_refl.
  - destruct (String.eqb n f) eqn:E; simpl; now rewrite E.
Qed.

Lemma hasChar_encryptLogEntry ivHex logEntry :
  isHex ivHex = true -> isHex (cbcHex logEntry) = true ->
  hasChar colon (encryptLogEntry cbcHex ivHex logEntry) = true /\
  hasChar lineFeed (encryptLogEntry cbcHex ivHex logEntry) = false.
Proof.
  intros Hiv Hhex. unfold encryptLogEntry. rewrite !hasChar_append. simpl.
  rewrite (proj2 (isHex_no_separator _ Hiv)),
          (proj2 (isHex_no_separator _ Hhex)).
  split; [apply orb_true_r | reflexivity].
Qed.

Lemma writeLogEntry_appends ivHex logEntry s f content :
  isInitialized s = true -> currentLogFile s = Some f ->
  lookupFile f (logDir s) = Some content ->
  isInitialized (writeLogEntry cbcHex ivHex logEntry s) = true /\
  currentLogFile (writeLogEntry cbcHex ivHex logEntry s) = Some f /\
  lookupFile f (logDir (writeLogEntry cbcHex ivHex logEntry s))
    = Some (content +:+ (encryptLogEntry cbcHex ivHex logEntry +:+ newline)).
Proof.
  intros Hi Hc Hf. unfold writeLogEntry. rewrite Hi, Hc.
  cbn [negb isInitialized currentLogFile logDir withLogDir].
  split; [exact Hi|]. split; [exact Hc|]. now apply lookupFile_appendFile.
Qed.

(** X19. The first line of a new log file is written without a line break,
    so the first entry appended to the file lands on the same line and
    neither of the two can be read back: after a new file, a first entry
    and a second entry, reading the file returns the second entry alone. *)
Theorem first_entry_of_a_new_file_is_lost :
  forall (s : SecurityLogger) (isoNow iv0 iv1 iv2 : string)
         (first second : LogEntry),
    isInitialized s = true ->
    isHex iv0 = true -> isHex iv1 = true -> isHex iv2 = true ->
    (forall e, isHex (cbcHex e) = true) ->
    cbcOpenHex (cbcHex second) = Some second ->
    let s1 := createNewLogFile cbcHex isoNow iv0 s in
    let s2 := writeLogEntry cbcHex iv1 first s1 in
    let s3 := writeLogEntry cbcHex iv2 second s2 in
    exists content,
      lookupFile (logFileNameAt isoNow) (logDir s3) = Some content /\
      readLogFile content = [second].
Proof.
  intros s isoNow iv0 iv1 iv2 first second Hinit H0 H1 H2 Hhex Hopen. cbv zeta.
  set (sys := {| type := "SYSTEM"; timestamp := isoNow; level := "INFO";
                 payload := "Log file created" |}).
  set (l0 := encryptLogEntry cbcHex iv0 sys).
  set (l1 := encryptLogEntry cbcHex iv1 first).
  set (l2 := encryptLogEntry cbcHex iv2 second).
  exists (l0 +:+ (l1 +:+ newline) +:+ (l2 +:+ newline)). split.
  - assert (Hs1 : isInitialized (createNewLogFile cbcHex isoNow iv0 s) = true /\
                  currentLogFile (createNewLogFile cbcHex isoNow iv0 s)
                    = Some (logFileNameAt isoNow) /\
                  lookupFile (logFileNameAt isoNow)
                    (logDir (createNewLogFile cbcHex isoNow iv0 s)) = Some l0).
    { unfold createNewLogFile. cbn [isInitialized currentLogFile logDir
        withLogDir withCurrentLogFile].
      split; [exact Hinit|]. split; [reflexivity | apply lookupFile_writeFile]. }
    destruct Hs1 as (Hi1 & Hc1 & Hf1).
    destruct (writeLogEntry_appends iv1 first _ _ _ Hi1 Hc1 Hf1)
      as (Hi2 & Hc2 & Hf2).
    destruct (writeLogEntry_appends iv2 second _ _ _ Hi2 Hc2 Hf2)
      as (_ & _ & Hf3).
    fold l1 in Hf3. fold l2 in Hf3. rewrite Hf3. now rewrite append_assoc.
  - destruct (hasChar_encryptLogEntry iv0 sys H0 (Hhex _)) as [Hc0 Hn0].
    destruct (hasChar_encryptLogEntry iv1 first H1 (Hhex _)) as [Hc1 Hn1].
    destruct (hasChar_encryptLogEntry iv2 second H2 (Hhex _)) as [Hc2 Hn2].
    fold l0 in Hc0, Hn0. fold l1 in Hc1, Hn1. fold l2 in Hc2, Hn2.
    unfold readLogFile.
    replace (l0 +:+ (l1 +:+ newline) +:+ (l2 +:+ newline))
      with ((l0 +:+ l1) +:+ String lineFeed (l2 +:+ String lineFeed EmptyString)).
    2:{ unfold newline. fold lineFeed. now rewrite !append_assoc. }
    rewrite splitOn_append_separator
      by (rewrite hasChar_append, Hn0, Hn1; reflexivity).
    rewrite splitOn_append_separator by assumption.
    simpl.
    rewrite (isBlank_with_colon (l0 +:+ l1))
      by (rewrite hasChar_append, Hc0; reflexivity).
    rewrite (isBlank_with_colon l2) by assumption.
    simpl. unfold l0, l1. rewrite decryptLogEntry_merged by auto.
    unfold l2, decryptLogEntry. rewrite splitOn_encryptLogEntry by auto.
    now rewrite Hopen.
Qed.

(** ** Log file names *)

Lemma append_cons x (a b : string) : String x a +:+ b = String x (a +:+ b).
Proof. reflexivity. Qed.

Lemma length_append (a b : string) :
  String.length (a +:+ b) = String.length a + String.length b.
Proof.
  induction a as [|x a IH]; [reflexivity|].
  rewrite append_cons. simpl. now rewrite IH.
Qed.

Lemma substring_skip (a b : string) n :
  String.substring (String.length a) n (a +:+ b) = String.substring 0 n b.
Proof.
  induction a as [|x a IH]; [reflexivity|].
  rewrite append_cons. simpl. exact IH.
Qed.

Lemma substring_prefix (a b : string) :
  String.substring 0 (String.length a) (a +:+ b) = a.
Proof.
  induction a as [|x a IH]; [now destruct b|].
  rewrite append_cons. simpl. now rewrite IH.
Qed.

Lemma substring_whole (a : string) :
  String.substring 0 (String.length a) a = a.
Proof. induction a as [|x a IH]; simpl; [reflexivity | now rewrite IH]. Qed.

Lemma length_mapString g s : String.length (mapString g s) = String.length s.
Proof. induction s as [|c s IH]; simpl; [reflexivity | now rewrite IH]. Qed.

Lemma endsWith_append (a suf : string) : endsWith (a +:+ suf) suf = true.
Proof.
  unfold endsWith. rewrite length_append.
  replace (String.length a + String.length suf - String.length suf)
    with (String.length a) by lia.
  rewrite substring_skip, substring_whole, String.eqb_refl.
  rewrite andb_true_r. apply Nat.leb_le. lia.
Qed.

Lemma isLogFileName_logFileNameAt isoNow :
  isLogFileName (logFileNameAt isoNow) = true.
Proof.
  unfold isLogFileName, logFileNameAt. apply andb_true_iff. split.
  - unfold startsWith. apply String.prefix_correct, substring_prefix.
  - rewrite <- append_assoc. apply endsWith_append.
Qed.

(** What is between the prefix and the extension of a log file name. *)
Lemma inner_of_logFileNameAt isoNow :
  String.substring 13 (String.length (logFileNameAt isoNow) - 17)
    (logFileNameAt isoNow)
  = mapString colonDotToDash isoNow.
Proof.
  unfold logFileNameAt.
  rewrite !length_append. simpl String.length.
  replace (13 + (String.length (mapString colonDotToDash isoNow) + 4) - 17)
    with (String.length (mapString colonDotToDash isoNow)) by lia.
  change 13 with (String.length "security_log_") at 1.
  rewrite substring_skip. apply substring_prefix.
Qed.

Lemma hasChar_dashToColon s :
  hasChar "-" (mapString dashToColon (mapString colonDotToDash s)) = false /\
  hasChar "." (mapString dashToColon (mapString colonDotToDash s)) = false.
Proof.
  induction s as [|c s [IH1 IH2]]; simpl; [auto|].
  rewrite IH1, IH2, !orb_false_r. unfold dashToColon, colonDotToDash.
  destruct (Ascii.eqb_spec c ":") as [->|H1]; [split; reflexivity|].
  destruct (Ascii.eqb_spec c ".") as [->|H2]; [split; reflexivity|].
  simpl. destruct (Ascii.eqb_spec c "-") as [->|H3]; [split; reflexivity|].
  split; apply Ascii.eqb_neq; assumption.
Qed.

(** X20. The time of a log file is not read back from its name: for a
    name made by [createNewLogFile] from the ISO time, the text handed to
    [Date] is that time with every dash, colon and dot turned into a colon.
    It holds no dash and no dot, so it differs from every ISO time, and the
    time the sort of the retention uses is whatever [Date] makes of it. *)
Theorem timestamp_text_is_not_the_iso_time :
  forall (nowMs : Z) (isoNow : string),
    isoNow <> "" ->
    let text := mapString dashToColon (mapString colonDotToDash isoNow) in
    extractTimestampFromFileName dateParse nowMs (logFileNameAt isoNow)
      = dateParse text /\
    hasChar "-" text = false /\ hasChar "." text = false /\
    (hasChar "-" isoNow = true \/ hasChar "." isoNow = true -> text <> isoNow).
Proof.
  intros nowMs isoNow Hne. cbv zeta.
  destruct (hasChar_dashToColon isoNow) as [Hd Hp].
  split; [|split; [exact Hd|split; [exact Hp|]]].
  - unfold extractTimestampFromFileName. rewrite inner_of_logFileNameAt.
    destruct (String.eqb_spec (mapString colonDotToDash isoNow) "") as [He|_];
      [|reflexivity].
    exfalso. apply Hne. destruct isoNow; [reflexivity | discriminate].
  - intros [H|H] Heq; rewrite Heq in *; congruence.
Qed.

(** ** Clearing the logs *)

Lemma unlinkUntilFailure_ok fs : forall d,
  (forall f, unlinkFails f = false) ->
  unlinkUntilFailure fs d = (fold_left (unlinkCaught unlinkFails) fs d, false).
Proof.
  induction fs as [|f fs IH]; intros d Hok; simpl; [reflexivity|].
  unfold unlinkCaught at 2. rewrite Hok. now apply IH.
Qed.

Lemma unlinkUntilFailure_thrown fs : forall d0 d1,
  unlinkUntilFailure fs d0 = (d1, true) ->
  exists f, In f fs /\ unlinkFails f = true.
Proof.
  induction fs as [|f fs IH]; intros d0 d1 H; simpl in H; [discriminate|].
  destruct (unlinkFails f) eqn:E; [exists f; split; [now left | exact E]|].
  destruct (IH _ _ H) as [g [Hg Hf]]. exists g. split; [now right | exact Hf].
Qed.

Lemma lookupFile_unlink_other f g d :
  g <> f -> lookupFile f (unlink g d) = lookupFile f d.
Proof.
  intros Hne. unfold unlink. induction d as [|[n c] d IH]; simpl; [reflexivity|].
  destruct (String.eqb_spec n g) as [->|Hng]; simpl.
  - destruct (String.eqb_spec g f); [contradiction | exact IH].
  - destruct (String.eqb n f); [reflexivity | exact IH].
Qed.

Lemma lookupFile_unlink_all fs : forall d f,
  ~ In f fs ->
  lookupFile f (fold_left (unlinkCaught unlinkFails) fs d) = lookupFile f d.
Proof.
  induction fs as [|g fs IH]; intros d f Hnot; simpl; [reflexivity|].
  rewrite IH by (intros H; apply Hnot; now right).
  unfold unlinkCaught. destruct (unlinkFails g); [reflexivity|].
  apply lookupFile_unlink_other. intros ->. apply Hnot. now left.
Qed.

Lemma writeFile_new f data d :
  ~ In f (map fst d) ->
  map fst (writeFile f data d) = map fst d ++ [f] /\
  (forall g, g <> f -> lookupFile g (writeFile f data d) = lookupFile g d).
Proof.
  induction d as [|[n c] d IH]; simpl; intros Hnot.
  - split; [reflexivity|]. intros g Hg.
    destruct (String.eqb_spec f g); [congruence | reflexivity].
  - destruct (String.eqb_spec n f) as [->|Hne]; [exfalso; auto|].
    destruct IH as [IH1 IH2]; [auto|]. simpl. split; [now rewrite IH1|].
    intros g Hg. destruct (String.eqb n g); [reflexivity | now apply IH2].
Qed.

Lemma filter_notAmong_logFiles names :
  List.filter (notAmong (List.filter isLogFileName names)) names
    = List.filter (fun n => negb (isLogFileName n)) names.
Proof.
  apply List.filter_ext_in. intros n Hn. unfold notAmong. f_equal.
  destruct (isLogFileName n) eqn:E.
  - apply List.existsb_exists. exists n. split; [|apply String.eqb_refl].
    apply List.filter_In. auto.
  - destruct (existsb (String.eqb n) (List.filter isLogFileName names)) eqn:Ex;
      [|reflexivity].
    apply List.existsb_exists in Ex as [m [Hm Heq]].
    apply String.eqb_eq in Heq. subst m.
    apply List.filter_In in Hm as [_ Hm]. congruence.
Qed.

Lemma filter_of_complement {A} (p : A -> bool) (l : list A) :
  List.filter p (List.filter (fun x => negb (p x)) l) = [].
Proof.
  induction l as [|x l IH]; simpl; [reflexivity|].
  destruct (p x) eqn:E; simpl; [exact IH | now rewrite E].
Qed.

(** X21. [clearLogs], when every deletion succeeds, leaves exactly one log
    file, the new active file holding its first line; files of the directory
    that are not log files keep their place and content.  When a deletion
    fails the method throws without creating a new file, and the active
    file is still the old one. *)
Theorem clearLogs_leaves_one_log_file :
  forall (isoNow ivHex : string) (s : SecurityLogger),
    ((forall f, unlinkFails f = false) ->
       exists s',
         clearLogs isoNow ivHex s = inr s' /\
         map fst (logDir s')
           = List.filter (fun n => negb (isLogFileName n)) (map fst (logDir s))
             ++ [logFileNameAt isoNow] /\
         logFileCount s' = 1 /\
         currentLogFile s' = Some (logFileNameAt isoNow) /\
         (forall f, isLogFileName f = false ->
                    lookupFile f (logDir s') = lookupFile f (logDir s))) /\
    (forall s', clearLogs isoNow ivHex s = inl s' ->
       currentLogFile s' = currentLogFile s /\
       exists f, In f (map fst (logDir s)) /\ unlinkFails f = true).
Proof.
  intros isoNow ivHex s. split.
  - intros Hok. unfold clearLogs.
    rewrite unlinkUntilFailure_ok by assumption.
    set (logs := List.filter isLogFileName (map fst (logDir s))).
    set (d := fold_left (unlinkCaught unlinkFails) logs (logDir s)).
    assert (Hnames : map fst d
                     = List.filter (fun n => negb (isLogFileName n))
                         (map fst (logDir s))).
    { unfold d. rewrite (map_fst_unlink_all unlinkFails) by assumption.
      apply filter_notAmong_logFiles. }
    assert (Hnew : ~ In (logFileNameAt isoNow) (map fst d)).
    { rewrite Hnames. intros Hin. apply List.filter_In in Hin as [_ Hin].
      now rewrite isLogFileName_logFileNameAt in Hin. }
    eexists. split; [reflexivity|].
    unfold createNewLogFile.
    cbn [logDir currentLogFile withLogDir withCurrentLogFile].
    destruct (writeFile_new (logFileNameAt isoNow)
                (encryptLogEntry cbcHex ivHex
                   {| type := "SYSTEM"; timestamp := isoNow; level := "INFO";
                      payload := "Log file created" |}) d Hnew) as [Hw1 Hw2].
    split; [now rewrite Hw1, Hnames|]. split; [|split; [reflexivity|]].
    + unfold logFileCount.
      cbn [logDir withLogDir withCurrentLogFile].
      rewrite Hw1, Hnames, List.filter_app, length_app. simpl.
      rewrite isLogFileName_logFileNameAt. simpl.
      now rewrite filter_of_complement.
    + intros f Hf. rewrite Hw2.
      * unfold d. apply lookupFile_unlink_all. unfold logs. intros Hin.
        apply List.filter_In in Hin as [_ Hin]. congruence.
      * intros ->. now rewrite isLogFileName_logFileNameAt in Hf.
  - intros s' Hthrow. unfold clearLogs in Hthrow.
    destruct (unlinkUntilFailure _ _) as [d thrown] eqn:Eu.
    destruct thrown; [|discriminate]. injection Hthrow as <-.
    split; [reflexivity|].
    destruct (unlinkUntilFailure_thrown _ _ _ Eu) as [f [Hin Hf]].
    exists f. split; [|exact Hf].
    apply List.filter_In in Hin. exact (proj1 Hin).
Qed.

(** ** The order of retention *)

Definition timeOf (a : string * option Z) : Z :=
  match snd a with Some t => t | None => 0%Z end.

(** No element is older than an element after it. *)
Fixpoint newestFirst (l : list (string * option Z)) : Prop :=
  match l with
  | [] => True
  | a :: l' => (forall b, In b l' -> (timeOf b <= timeOf a)%Z) /\ newestFirst l'
  end.

Lemma comesFirst_times (x y : string * option Z) :
  snd x <> None -> snd y <> None ->
  comesFirst byTimestampDesc x y = (timeOf y <=? timeOf x)%Z.
Proof.
  unfold comesFirst, byTimestampDesc, timeOf.
  destruct (snd x), (snd y); try congruence. intros _ _.
  destruct (Z.leb_spec (z0 - z) 0), (Z.leb_spec z0 z); (reflexivity || lia).
Qed.

Lemma insertSorted_newestFirst x l :
  snd x <> None -> Forall (fun a => snd a <> None) l ->
  newestFirst l -> newestFirst (insertSorted byTimestampDesc x l).
Proof.
  intros Hx Hall. induction l as [|y l IH]; simpl; intros Hs.
  - split; [intros b [] | exact I].
  - inversion Hall as [|? ? Hy Hl]; subst. destruct Hs as [Hy' Hs'].
    rewrite comesFirst_times by assumption.
    destruct (Z.leb_spec (timeOf y) (timeOf x)) as [Hle|Hgt]; simpl.
    + split; [|split; assumption].
      intros b [<-|Hb]; [assumption|]. specialize (Hy' b Hb). lia.
    + split; [|now apply IH].
      intros b Hb.
      apply (Permutation_in _ (insertSorted_perm byTimestampDesc x l)) in Hb.
      destruct Hb as [<-|Hb]; [lia | now apply Hy'].
Qed.

Lemma sortBy_newestFirst l :
  Forall (fun a => snd a <> None) l -> newestFirst (sortBy byTimestampDesc l).
Proof.
  induction 1 as [|x l Hx Hl IH]; simpl; [exact I|].
  apply insertSorted_newestFirst; [assumption | | assumption].
  apply List.Forall_forall. intros a Ha.
  apply (Permutation_in _ (sortBy_perm byTimestampDesc l)) in Ha.
  rewrite List.Forall_forall in Hl. now apply Hl.
Qed.

Lemma newestFirst_app l1 l2 :
  newestFirst (l1 ++ l2) ->
  forall a b, In a l1 -> In b l2 -> (timeOf b <= timeOf a)%Z.
Proof.
  induction l1 as [|x l1 IH]; simpl; intros Hs a b Ha Hb; [destruct Ha|].
  destruct Hs as [Hx Hs]. destruct Ha as [<-|Ha].
  - apply Hx. apply List.in_app_iff. now right.
  - now apply IH.
Qed.

Lemma sortBy_all_nan (l : list (string * option Z)) :
  Forall (fun a => snd a = None) l -> sortBy byTimestampDesc l = l.
Proof.
  induction 1 as [|x l Hx Hl IH]; simpl; [reflexivity|].
  rewrite IH. destruct l as [|y l']; simpl; [reflexivity|].
  unfold comesFirst, byTimestampDesc. rewrite Hx.
  now destruct (snd y).
Qed.

(** X22. Which log files the retention deletes depends on what [Date]
    makes of their names.  When every name yields a time, no deleted file
    is newer than a file that is kept.  When every name yields [NaN], the
    sort leaves the directory listing in its own order, so the files kept
    are the first [maxLogFiles] of the listing, whatever their age. *)
Theorem retention_order :
  forall (nowMs : Z) (s : SecurityLogger),
    let names := List.filter isLogFileName (map fst (logDir s)) in
    let sorted := sortedLogFiles dateParse nowMs s in
    ((forall f, In f names ->
                extractTimestampFromFileName dateParse nowMs f <> None) ->
       forall kept deleted,
         In kept (firstn (maxLogFiles s) sorted) ->
         In deleted (skipn (maxLogFiles s) sorted) ->
         (timeOf deleted <= timeOf kept)%Z) /\
    ((forall f, In f names ->
                extractTimestampFromFileName dateParse nowMs f = None) ->
       map fst sorted = names /\
       map fst (skipn (maxLogFiles s) sorted) = skipn (maxLogFiles s) names).
Proof.
  intros nowMs s names sorted. split.
  - intros Hparse kept deleted Hk Hd.
    apply (newestFirst_app (firstn (maxLogFiles s) sorted)
             (skipn (maxLogFiles s) sorted)); [|assumption..].
    rewrite List.firstn_skipn. unfold sorted, sortedLogFiles.
    apply sortBy_newestFirst. apply List.Forall_forall.
    intros a Ha. apply in_map_iff in Ha as [f [<- Hf]]. simpl.
    now apply Hparse.
  - intros Hnan.
    assert (Hsorted : sorted
                      = map (fun file =>
                               (file, extractTimestampFromFileName dateParse
                                        nowMs file)) names).
    { unfold sorted, sortedLogFiles. apply sortBy_all_nan.
      apply List.Forall_forall. intros a Ha.
      apply in_map_iff in Ha as [f [<- Hf]]. simpl. now apply Hnan. }
    rewrite Hsorted. split.
    + rewrite map_map. simpl. apply map_id.
    + rewrite List.skipn_map, map_map. simpl. apply map_id.
Qed.

(** ** The data wipe of the panic handler *)

Lemma prefix_of_longer (a b s : string) :
  String.prefix (a +:+ b) s = true -> String.prefix a s = true.
Proof.
  revert s. induction a as [|x a IH]; intros s H; [now destruct s|].
  rewrite append_cons in H. destruct s as [|y s]; simpl in *; [discriminate|].
  destruct (ascii_dec x y); [now apply IH | discriminate].
Qed.

Lemma keptByWipe_logFile file : isLogFileName file = true -> keptByWipe file = true.
Proof.
  intros H. unfold isLogFileName in H. apply andb_true_iff in H as [H _].
  unfold startsWith in H.
  change "security_log_" with ("security" +:+ "_log_") in H.
  apply prefix_of_longer in H. unfold keptByWipe.
  destruct file as [|c file]; simpl in *; [discriminate|].
  now rewrite H.
Qed.

Lemma wipe_as_unlinks names : forall d,
  fold_left
    (fun d file => if negb (keptByWipe file) then unlinkCaught unlinkFails d file
                   else d) names d
  = fold_left (unlinkCaught unlinkFails)
      (List.filter (fun file => negb (keptByWipe file)) names) d.
Proof.
  induction names as [|n names IH]; intros d; simpl; [reflexivity|].
  destruct (keptByWipe n); simpl; apply IH.
Qed.

(** X23. The data wipe of panic mode spares the security log: every log
    file keeps its content, and so does every other file whose name
    includes [security] or [threat]; when every deletion succeeds, the
    files left in the log directory are exactly those. *)
Theorem wipe_spares_the_security_log :
  forall d : list (string * string),
    (forall f, isLogFileName f = true ->
               lookupFile f (wipeNonSecurityLogs d) = lookupFile f d) /\
    (forall f, keptByWipe f = true ->
               lookupFile f (wipeNonSecurityLogs d) = lookupFile f d) /\
    ((forall f, unlinkFails f = false) ->
       map fst (wipeNonSecurityLogs d) = List.filter keptByWipe (map fst d)).
Proof.
  intros d. unfold wipeNonSecurityLogs. rewrite wipe_as_unlinks.
  assert (Hkept : forall f, keptByWipe f = true ->
            lookupFile f
              (fold_left (unlinkCaught unlinkFails)
                 (List.filter (fun file => negb (keptByWipe file)) (map fst d)) d)
            = lookupFile f d).
  { intros f Hf. apply lookupFile_unlink_all. intros Hin.
    apply List.filter_In in Hin as [_ Hin]. now rewrite Hf in Hin. }
  split; [|split].
  - intros f Hf. apply Hkept. now apply keptByWipe_logFile.
  - exact Hkept.
  - intros Hok. rewrite (map_fst_unlink_all unlinkFails) by assumption.
    apply List.filter_ext_in. intros n Hn. unfold notAmong.
    destruct (keptByWipe n) eqn:E.
    + apply negb_true_iff.
      destruct (existsb _ _) eqn:Ex; [|reflexivity].
      apply List.existsb_exists in Ex as [m [Hm Heq]].
      apply String.eqb_eq in Heq. subst m.
      apply List.filter_In in Hm as [_ Hm]. now rewrite E in Hm.
    + apply negb_false_iff. apply List.existsb_exists. exists n.
      split; [|apply String.eqb_refl]. apply List.filter_In. now rewrite E.
Qed.

End WithRuntime.

(** ** Concrete runs *)

Definition openHex (h : string) : option LogEntry :=
  if String.eqb h "5f2c9a7e0d4b1c3e5f2c9a7e0d4b1c3e" then Some (entry "t2")
  else None.

Definition twoLogs : SecurityLogger :=
  {| logDir := [ ("security_log_2024-01-01T00-00-00-000Z.enc", "00:aabb");
                 ("notes.txt", "keep");
                 ("security_log_2024-01-02T00-00-00-000Z.enc", "01:ccdd") ];
     maxLogSize := 40; maxLogFiles := 1;
     currentLogFile := Some "security_log_2024-01-02T00-00-00-000Z.enc";
     isInitialized := true |}.

Lemma log_entry_round_trip_witness :
  isHex "00ff" = true /\ isHex (hexOfEntry (entry "t2")) = true /\
  openHex (hexOfEntry (entry "t2")) = Some (entry "t2") /\
  decryptLogEntry openHex (encryptLogEntry hexOfEntry "00ff" (entry "t2"))
    = Some (entry "t2").
Proof.
  assert (H1 : isHex "00ff" = true) by reflexivity.
  assert (H2 : isHex (hexOfEntry (entry "t2")) = true) by reflexivity.
  assert (H3 : openHex (hexOfEntry (entry "t2")) = Some (entry "t2"))
    by reflexivity.
  split; [exact H1|]. split; [exact H2|]. split; [exact H3|].
  exact (proj1 (log_entry_round_trip hexOfEntry openHex "00ff" (entry "t2")
                  H1 H2 H3)).
Defined.

Lemma first_entry_lost_witness :
  isInitialized smallLogger = true /\
  isHex "00" = true /\ isHex "01" = true /\ isHex "02" = true /\
  (forall e, isHex (hexOfEntry e) = true) /\
  openHex (hexOfEntry (entry "t2")) = Some (entry "t2") /\
  exists content,
    lookupFile (logFileNameAt "2024-01-02T00:00:00.000Z")
      (logDir (writeLogEntry hexOfEntry "02" (entry "t2")
                 (writeLogEntry hexOfEntry "01" (entry "t1")
                    (createNewLogFile hexOfEntry "2024-01-02T00:00:00.000Z" "00"
                       smallLogger))))
      = Some content /\
    readLogFile openHex content = [entry "t2"].
Proof.
  assert (H0 : isInitialized smallLogger = true) by reflexivity.
  assert (H1 : isHex "00" = true) by reflexivity.
  assert (H2 : isHex "01" = true) by reflexivity.
  assert (H3 : isHex "02" = true) by reflexivity.
  assert (H4 : forall e, isHex (hexOfEntry e) = true) by (intros e; reflexivity).
  assert (H5 : openHex (hexOfEntry (entry "t2")) = Some (entry "t2"))
    by reflexivity.
  split; [exact H0|]. split; [exact H1|]. split; [exact H2|].
  split; [exact H3|]. split; [exact H4|]. split; [exact H5|].
  exact (first_entry_of_a_new_file_is_lost hexOfEntry openHex smallLogger
           "2024-01-02T00:00:00.000Z" "00" "01" "02" (entry "t1") (entry "t2")
           H0 H1 H2 H3 H4 H5).
Defined.

Lemma timestamp_text_witness :
  "2024-01-02T00:00:00.000Z" <> "" /\
  extractTimestampFromFileName (fun _ => None) 0
    (logFileNameAt "2024-01-02T00:00:00.000Z")
    = (fun _ : string => @None Z) "2024:01:02T00:00:00:000Z".
Proof.
  assert (H : "2024-01-02T00:00:00.000Z" <> "") by discriminate.
  split; [exact H|].
  exact (proj1 (timestamp_text_is_not_the_iso_time (fun _ => None) 0
                  "2024-01-02T00:00:00.000Z" H)).
Defined.

Lemma clearLogs_witness :
  (forall f, (fun _ : string => false) f = false) /\
  exists s',
    clearLogs hexOfEntry (fun _ => false) "2024-01-03T00:00:00.000Z" "03" twoLogs
      = inr s' /\
    map fst (logDir s')
      = List.filter (fun n => negb (isLogFileName n)) (map fst (logDir twoLogs))
        ++ [logFileNameAt "2024-01-03T00:00:00.000Z"] /\
    logFileCount s' = 1 /\
    currentLogFile s' = Some (logFileNameAt "2024-01-03T00:00:00.000Z") /\
    (forall f, isLogFileName f = false ->
               lookupFile f (logDir s') = lookupFile f (logDir twoLogs)).
Proof.
  assert (H : forall f, (fun _ : string => false) f = false) by reflexivity.
  split; [exact H|].
  exact (proj1 (clearLogs_leaves_one_log_file hexOfEntry (fun _ => false)
                  "2024-01-03T00:00:00.000Z" "03" twoLogs) H).
Defined.

Lemma retention_order_witness :
  (forall f, In f (List.filter isLogFileName (map fst (logDir twoLogs))) ->
             extractTimestampFromFileName (fun _ => None) 0 f = None) /\
  map fst (skipn (maxLogFiles twoLogs) (sortedLogFiles (fun _ => None) 0 twoLogs))
    = skipn (maxLogFiles twoLogs)
        (List.filter isLogFileName (map fst (logDir twoLogs))).
Proof.
  assert (H : forall f,
             In f (List.filter isLogFileName (map fst (logDir twoLogs))) ->
             extractTimestampFromFileName (fun _ => None) 0 f = None).
  { intros f Hf. vm_compute in Hf. destruct Hf as [<-|[<-|[]]]; reflexivity. }
  split; [exact H|].
  exact (proj2 (proj2 (retention_order (fun _ => None) 0 twoLogs) H)).
Defined.

Lemma wipe_witness :
  isLogFileName "security_log_2024-01-01T00-00-00-000Z.enc" = true /\
  lookupFile "security_log_2024-01-01T00-00-00-000Z.enc"
    (wipeNonSecurityLogs (fun _ => false) (logDir twoLogs))
    = lookupFile "security_log_2024-01-01T00-00-00-000Z.enc" (logDir twoLogs).
Proof.
  assert (H : isLogFileName "security_log_2024-01-01T00-00-00-000Z.enc" = true)
    by (vm_compute; reflexivity).
  split; [exact H|].
  exact (proj1 (wipe_spares_the_security_log (fun _ => false) (logDir twoLogs))
           _ H).
Defined.

End LogStore.
